(** * HARMONIE forecast to dfs2: the forecast-to-PET pipeline

    A shallow embedding of the notebook [harmonie_forecast_to_dfs2.ipynb]:
    the unit conversion and de-accumulation cell, the daylight factors, the
    Makkink and Penman-Monteith functions and the export unit conversion.

    Conventions of the embedding.
    - A sample of a field is a real number: the arithmetic of the notebook is
      read in exact real arithmetic.  Rounding, infinities and not-a-number
      samples of the binary floating-point arrays are outside this model.
    - A [DataArray] of shape (time, y, x) is a list of grids, a grid a list of
      rows, a row a list of samples.
    - The dataset [ds] is a finite map from variable names to fields; reading
      a missing variable ([KeyError]) is [None] in the option monad.
    - Element-wise operations pair the samples of their operands position by
      position (all fields of the dataset share one shape). *)

From Stdlib Require Import Reals Lra Lia QArith Qreals.
From stdpp Require Import gmap strings list.

(** ** Arrays of shape (time, y, x) *)

Module NDArray.

Abbreviation row := (list R).
Abbreviation grid := (list (list R)).
Abbreviation field := (list (list (list R))).

(** [a[i, y, x]], [None] when an index is out of range. *)
Definition cell (a : field) (i y x : nat) : option R :=
  g ← a !! i; r ← g !! y; r !! x.

(** The array has [T] timesteps of [Y] rows of [X] samples. *)
Definition shape (T Y X : nat) (a : field) : Prop :=
  length a = T ∧
  Forall (λ g : grid, length g = Y ∧ Forall (λ r : row, length r = X) g) a.

(** Element-wise application of a scalar function ([k * a], [np.exp(a)],
    [a.clip(min=0)], ...). *)
Definition amap (f : R → R) (a : field) : field :=
  fmap (M := list) (fmap (M := list) (fmap (M := list) f)) a.

(** Element-wise combination of two arrays ([a + b], [a - b], [a * b],
    [a / b]). *)
Definition azip (f : R → R → R) (a b : field) : field :=
  zip_with (zip_with (zip_with f)) a b.

(** [a[k:] = v] for a value [v] that has the shape of [a[k:]]. *)
Definition assign_from (k : nat) (a v : field) : field := take k a ++ v.

(** [a[i, :, :] = g]; [None] when [i] is out of range ([IndexError]). *)
Definition assign_at (i : nat) (a : field) (g : grid) : option field :=
  if decide (i < length a)%nat then Some (<[i := g]> a) else None.

End NDArray.

Import NDArray.

(** ** The dataset *)

Abbreviation dataset := (gmap string field).

(** ** Cell 4: de-accumulating the accumulated parameters *)

Definition accumulated_vars : list string :=
  ["grad"; "nswrf"; "nlwrf"; "precip"]%string.

(** [data[1:] - data[:-1]] followed by [ds[var].data[1:] = ...].  The
    right-hand side is a new array computed from the old samples before the
    slice is written. *)
Definition deaccumulate_data (data : field) : field :=
  assign_from 1 data
    (azip Rminus (drop 1 data) (take (length data - 1) data)).

(** One iteration of the loop over [accumulated_vars]. *)
Definition deaccumulate_var (ds : dataset) (var : string) : option dataset :=
  data ← ds !! var;
  Some (<[var := deaccumulate_data data]> ds).

(** [for var in vars: body], in the option monad. *)
Fixpoint for_each {S A : Type} (body : S → A → option S)
    (vars : list A) (s : S) : option S :=
  match vars with
  | [] => Some s
  | v :: rest => s' ← body s v; for_each body rest s'
  end.

Definition deaccumulate (ds : dataset) : option dataset :=
  for_each deaccumulate_var accumulated_vars ds.

(** ** Element-wise arithmetic of the notebook, by its numpy spelling *)

Section Arithmetic.
Local Open Scope R_scope.

Definition smul (k : R) (a : field) : field := amap (Rmult k) a.        (* k * a *)
Definition mulc (a : field) (k : R) : field := amap (λ v, v * k) a.     (* a * k *)
Definition divc (a : field) (k : R) : field := amap (λ v, v / k) a.     (* a / k *)
Definition addc (a : field) (k : R) : field := amap (λ v, v + k) a.     (* a + k *)
Definition subc (a : field) (k : R) : field := amap (λ v, v - k) a.     (* a - k *)
Definition csub (k : R) (a : field) : field := amap (λ v, k - v) a.     (* k - a *)
Definition cadd (k : R) (a : field) : field := amap (λ v, k + v) a.     (* k + a *)
Definition square (a : field) : field := amap (λ v, v ^ 2) a.           (* a ** 2 *)
Definition aexp (a : field) : field := amap exp a.                      (* np.exp(a) *)
Definition aadd : field → field → field := azip Rplus.                  (* a + b *)
Definition asub : field → field → field := azip Rminus.                 (* a - b *)
Definition amul : field → field → field := azip Rmult.                  (* a * b *)
Definition adiv : field → field → field := azip Rdiv.                   (* a / b *)
Definition clip_min0 (a : field) : field := amap (Rmax 0) a.            (* a.clip(min=0) *)

(** [k * g] for one timestep [g = a[i, :, :]]. *)
Definition gscale (k : R) (g : grid) : grid :=
  fmap (M := list) (fmap (M := list) (Rmult k)) g.

End Arithmetic.

(** ** Cell 4: unit conversion, de-accumulation, net radiation *)

Section Cell4.
Local Open Scope R_scope.
Local Open Scope string_scope.

Definition unit_conversion (ds : dataset) : option dataset :=
  (* ds['pres'] = ds['pres'] * 1E-3 *)
  pres ← ds !! "pres";
  let ds := <["pres" := mulc pres 1E-3]> ds in
  (* ds['temp'] = ds['temp'] - 273.15 *)
  temp ← ds !! "temp";
  let ds := <["temp" := subc temp 273.15]> ds in
  (* for var in accumulated_vars: ... *)
  ds ← deaccumulate ds;
  (* ds['rn'] = ds['nswrf'] + ds['nlwrf'] *)
  nswrf ← ds !! "nswrf";
  nlwrf ← ds !! "nlwrf";
  let ds := <["rn" := aadd nswrf nlwrf]> ds in
  (* ds['grad'] = ds['grad'] * 1E-6 *)
  grad ← ds !! "grad";
  let ds := <["grad" := mulc grad 1E-6]> ds in
  (* ds['rn'] = ds['rn'] * 1E-6 *)
  rn ← ds !! "rn";
  Some (<["rn" := mulc rn 1E-6]> ds).

End Cell4.

(** ** Cell 5: daylight factors *)

Record date := Date { year : Z; month : Z; day : Z }.

(** An element of the time axis ([pd.to_datetime(timestep)]). *)
Record timestamp := Timestamp {
  ts_date : date; ts_hour : Z; ts_minute : Z; ts_second : Z }.

(** A [datetime.time], as [strptime(..., '%I:%M:%S %p').time()] builds it. *)
Record time := Time { hour : Z; minute : Z; second : Z }.

(** What the notebook asks of the outside world.
    - [sunrise_sunset d]: the ['sunrise'] and ['sunset'] entries of the
      sunrise-sunset.org response for the date [d] at the fixed reference point,
      parsed by [strptime]; [None] when the request or the parsing raises.
    - [tz_dst ts]: [copenhagen_tz.dst(ts, is_dst=None)] as a number of seconds;
      [None] when pytz raises (ambiguous or non-existent local time). *)
Record services := Services {
  sunrise_sunset : date → option (time * time);
  tz_dst : timestamp → option Z }.

Section Daylight.
Local Open Scope Q_scope.

(** [t.hour + t.minute / 60.0 + daylight] *)
Definition decimal_hour (t : time) (daylight : Q) : Q :=
  inject_Z (hour t) + inject_Z (minute t) / 60 + daylight.

(** [2 if copenhagen_tz.dst(ts_datetime, is_dst=None) else 1]: a zero
    timedelta is false. *)
Definition daylight_offset (dst : Z) : Q :=
  if decide (dst = 0%Z) then 1 else 2.

(** The body of the loop of [get_daylight_factors] for one timestep. *)
Definition daylight_factor (svc : services) (ts : timestamp) : option (Q * Q) :=
  r ← sunrise_sunset svc (ts_date ts);
  dst ← tz_dst svc ts;
  let daylight := daylight_offset dst in
  let sunrise_hour := decimal_hour (fst r) daylight in
  let sunset_hour := decimal_hour (snd r) daylight in
  Some (sunrise_hour, sunset_hour).

Definition get_daylight_factors (svc : services) (timeseries : list timestamp)
    : option (list (Q * Q)) :=
  mapM (daylight_factor svc) timeseries.

(** [pd.to_datetime(timeseries[i]).hour + pd.to_datetime(timeseries[i]).minute / 60] *)
Definition hour_of_day (ts : timestamp) : Q :=
  inject_Z (ts_hour ts) + inject_Z (ts_minute ts) / 60.

(** [sunrise <= hour < sunset] *)
Definition in_daylight (sunrise sunset hour : Q) : bool :=
  Qle_bool sunrise hour && negb (Qle_bool sunset hour).

End Daylight.

(** ** Cell 5: the store of arrays *)

(** The arrays that [calculate_penman_monteith] receives are objects shared
    with the caller; [G] is a further object that the function writes to.  A
    store is the list of the live arrays, an array reference its index. *)
Abbreviation store := (list field).
Abbreviation ref := nat.

(** [copy.deepcopy(a)]: a new object with the samples of [a]. *)
Definition deepcopy (h : store) (a : ref) : option (store * ref) :=
  v ← h !! a; Some (h ++ [v], length h).

Section PET.
Local Open Scope R_scope.

(** The soil heat flux factor of a timestep. *)
Definition G_factor (sunrise sunset hour : Q) : R :=
  if in_daylight sunrise sunset hour then 0.1 else 0.5.

(** The loop [for i, (sunrise, sunset) in enumerate(daylight_factors)],
    started at index [i]: each iteration reads [rn[i, :, :]] from the store
    and writes [G[i, :, :]] in place. *)
Fixpoint G_flux_loop (h : store) (rn G : ref) (timeseries : list timestamp)
    (daylight_factors : list (Q * Q)) (i : nat) : option store :=
  match daylight_factors with
  | [] => Some h
  | (sunrise, sunset) :: rest =>
      ts ← timeseries !! i;
      let hour := hour_of_day ts in
      vrn ← h !! rn;
      g ← vrn !! i;
      vG ← h !! G;
      vG' ← assign_at i vG (gscale (G_factor sunrise sunset hour) g);
      G_flux_loop (<[G := vG']> h) rn G timeseries rest (S i)
  end.

Definition CP : R := 1.013e-3.
Definition pet_factor : R := 37.

(** The arithmetic of [calculate_penman_monteith] after the loop ([lam] is
    the notebook's [λ]). *)
Definition penman_monteith_equation (temp rh ws rn pres G : field) : field :=
  let lam := csub 2.501 (smul 0.002361 temp) in
  let γ := adiv (smul CP pres) (smul 0.622 lam) in
  let es := smul 0.6108 (aexp (adiv (smul 17.27 temp) (addc temp 237.3))) in
  let ea := amul (divc rh 100) es in
  let s := adiv (smul 4098 es) (square (addc temp 237.3)) in
  let u2 := smul (4.87 / ln (67.8 * 10 - 5.42)) ws in
  let pm_pet :=
    adiv (aadd (amul (smul 0.408 s) (asub rn G))
               (amul (amul (adiv (mulc γ pet_factor) (addc temp 273)) u2)
                     (asub es ea)))
         (aadd s (amul γ (cadd 1 (smul 0.34 u2)))) in
  clip_min0 pm_pet.

Definition calculate_penman_monteith (svc : services) (h : store)
    (temp rh ws rn pres : ref) (timeseries : list timestamp)
    : option (store * field) :=
  '(h, G) ← deepcopy h rn;
  daylight_factors ← get_daylight_factors svc timeseries;
  h ← G_flux_loop h rn G timeseries daylight_factors 0;
  vtemp ← h !! temp;
  vrh ← h !! rh;
  vws ← h !! ws;
  vrn ← h !! rn;
  vpres ← h !! pres;
  vG ← h !! G;
  Some (h, penman_monteith_equation vtemp vrh vws vrn vpres vG).

Definition calculate_makkink (temp rs pres : field) : field :=
  let lam := csub 2.501 (smul 0.002361 temp) in
  let γ := adiv (smul CP pres) (smul 0.622 lam) in
  let es := smul 0.6108 (aexp (adiv (smul 17.27 temp) (addc temp 237.3))) in
  let s := adiv (smul 4098 es) (square (addc temp 237.3)) in
  let makkink_pet := adiv (amul (smul 0.65 s) rs) (amul lam (aadd s γ)) in
  clip_min0 makkink_pet.

End PET.

(** ** Cell 5: the two calls, and cell 6: export units *)

Section Cells.
Local Open Scope R_scope.
Local Open Scope string_scope.

(** [ds['makkink'] = calculate_makkink(...)] and
    [ds['penman_monteith'] = calculate_penman_monteith(...)].  The five
    arrays handed to [calculate_penman_monteith] are the objects 0..4 of the
    store; after the call the dataset holds them as the call left them. *)
Definition pet_cell (svc : services) (timeseries : list timestamp)
    (ds : dataset) : option dataset :=
  temp ← ds !! "temp";
  grad ← ds !! "grad";
  pres ← ds !! "pres";
  let ds := <["makkink" := calculate_makkink temp grad pres]> ds in
  temp ← ds !! "temp";
  rh ← ds !! "rh";
  ws ← ds !! "ws";
  rn ← ds !! "rn";
  pres ← ds !! "pres";
  '(h, pm) ←
    calculate_penman_monteith svc [temp; rh; ws; rn; pres] 0 1 2 3 4 timeseries;
  temp ← h !! 0%nat;
  rh ← h !! 1%nat;
  ws ← h !! 2%nat;
  rn ← h !! 3%nat;
  pres ← h !! 4%nat;
  Some (<["penman_monteith" := pm]>
        (<["pres" := pres]> (<["rn" := rn]> (<["ws" := ws]>
        (<["rh" := rh]> (<["temp" := temp]> ds)))))).

(** The unit conversions at the head of the export cell (the flip of the
    y axis and the writing of the files are not modelled). *)
Definition export_units (ds : dataset) : option dataset :=
  (* ds['grad'] = ds['grad'] * 1000 *)
  grad ← ds !! "grad";
  let ds := <["grad" := mulc grad 1000]> ds in
  (* ds['rn'] = ds['rn'] * 1000 *)
  rn ← ds !! "rn";
  let ds := <["rn" := mulc rn 1000]> ds in
  (* ds['nswrf'] = ds['nswrf'] * 1.00E-03 *)
  nswrf ← ds !! "nswrf";
  let ds := <["nswrf" := mulc nswrf 1.00E-03]> ds in
  (* ds['nlwrf'] = ds['nlwrf'] * 1.00E-03 *)
  nlwrf ← ds !! "nlwrf";
  let ds := <["nlwrf" := mulc nlwrf 1.00E-03]> ds in
  (* ds['precip'] = ds['precip'].clip(min = 0) *)
  precip ← ds !! "precip";
  Some (<["precip" := clip_min0 precip]> ds).

(** Cells 4, 5 and 6 in sequence. *)
Definition pipeline (svc : services) (timeseries : list timestamp)
    (ds : dataset) : option dataset :=
  ds ← unit_conversion ds;
  ds ← pet_cell svc timeseries ds;
  export_units ds.

End Cells.

(** ** The equations as the specification words them *)

Module Spec.
Section Equations.
Local Open Scope R_scope.

(** re-accumulation: the cumulative sum of the samples of cell (y, x) from
    timestep 0 over the timesteps [0 .. n-1] ([None] when a sample is
    missing) *)
Fixpoint cumulative (a : field) (y x : nat) (n : nat) : option R :=
  match n with
  | O => Some 0
  | S k => s ← cumulative a y x k; v ← cell a k y x; Some (s + v)
  end.

(** latent heat of vaporization: λ = 2.501 − 0.002361·T *)
Definition latent_heat (T : R) : R := 2.501 - 0.002361 * T.

(** psychrometric constant: γ = (1.013e-3 · P) / (0.622 · λ) *)
Definition psychrometric (T P : R) : R :=
  (1.013e-3 * P) / (0.622 * latent_heat T).

(** saturation vapor pressure: es = 0.6108 · exp(17.27·T / (T+237.3)) *)
Definition saturation_pressure (T : R) : R :=
  0.6108 * exp (17.27 * T / (T + 237.3)).

(** slope of the saturation curve: s = 4098·es / (T+237.3)² *)
Definition slope (T : R) : R :=
  4098 * saturation_pressure T / (T + 237.3) ^ 2.

(** actual vapor pressure: ea = (RH/100)·es *)
Definition actual_pressure (T RH : R) : R :=
  (RH / 100) * saturation_pressure T.

(** wind speed at reference height: u2 = (4.87 / ln(67.8·h − 5.42)) · ws,
    with h = 10 *)
Definition wind_2m (ws : R) : R :=
  let h := 10 in (4.87 / ln (67.8 * h - 5.42)) * ws.

(** PET = (0.65 · s · rs) / (λ · (s+γ)), negative results clamped to zero *)
Definition makkink (T rs P : R) : R :=
  let s := slope T in
  let γ := psychrometric T P in
  Rmax 0 ((0.65 * s * rs) / (latent_heat T * (s + γ))).

(** PET = [0.408·s·(rn−G) + γ·(37/(T+273))·u2·(es−ea)]
          / [s + γ·(1+0.34·u2)], negative results clamped to zero *)
Definition penman_monteith (T RH ws rn P G : R) : R :=
  let s := slope T in
  let γ := psychrometric T P in
  let es := saturation_pressure T in
  let ea := actual_pressure T RH in
  let u2 := wind_2m ws in
  Rmax 0 ((0.408 * s * (rn - G) + γ * (37 / (T + 273)) * u2 * (es - ea))
          / (s + γ * (1 + 0.34 * u2))).

End Equations.
End Spec.


(** ** The model run cell *)

Section ModelRun.
Local Open Scope Z_scope.

(** A naive [datetime] is the number of microseconds since the start of day
    0 of the calendar, a [date] the number of its day; [timedelta]
    arithmetic is addition. *)
Definition us_per_hour : Z := 3600 * 1000000.
Definition us_per_day : Z := 24 * us_per_hour.

(** [datetime.combine(date, time)] for a time of [hour] o'clock. *)
Definition combine (date : Z) (hour : Z) : Z :=
  date * us_per_day + hour * us_per_hour.

(** [dt.date()] *)
Definition date_of (dt : Z) : Z := dt `div` us_per_day.

(** The hour that [dt.strftime("%H")] prints. *)
Definition hour_of (dt : Z) : Z := (dt `mod` us_per_day) `div` us_per_hour.

(** ['00', '06', '12', '18'], as [strptime(hour, '%H')] reads them. *)
Definition forecast_hours : list Z := [0; 6; 12; 18].

(** [[datetime.combine(date, ...) for date in [date_yesterday, date_today]
      for hour in forecast_hours]] *)
Definition forecast_datetimes (date_today : Z) : list Z :=
  let date_yesterday := date_today - 1 in
  date ← [date_yesterday; date_today];
  hour ← forecast_hours;
  [combine date hour].

(** [[h for h in forecast_datetimes if h < tback]] *)
Definition filtered_forecasts (date_today tback : Z) : list Z :=
  filter (λ h, h < tback) (forecast_datetimes date_today).

(** [max(l, default=d)] *)
Definition max_default (l : list Z) (d : Z) : Z :=
  match l with
  | [] => d
  | h :: rest => foldl Z.max h rest
  end.

(** [tback = datetime.now() - timedelta(hours=6)] and
    [closest_forecast = max(filtered_forecasts, default=tback)]. *)
Definition closest_forecast (date_today now : Z) : Z :=
  let tback := now - 6 * us_per_hour in
  max_default (filtered_forecasts date_today tback) tback.

(** The model run ID [f'{date_today}T{closest_forecast.strftime("%H")}0000Z']:
    the date and the hour that the string spells. *)
Record modelrun_id := ModelRun { run_date : Z; run_hour : Z }.

Definition modelrun (date_today now : Z) : modelrun_id :=
  {| run_date := date_today;
     run_hour := hour_of (closest_forecast date_today now) |}.

(** The instant that a model run ID names. *)
Definition run_datetime (id : modelrun_id) : Z :=
  combine (run_date id) (run_hour id).

End ModelRun.

(** ** The parameter dictionary *)

Inductive EUMType :=
  | Temperature | Pressure | Sun_radiation | Precipitation_Rate
  | Wind_speed | Relative_humidity | Evapotranspiration_Rate.

Inductive EUMUnit :=
  | degree_Celsius | kilopascal | kJ_per_meter_pow_2_per_hour
  | mm_per_hour | meter_per_sec | percent.

(** An element of a list of [param]. *)
Inductive pvalue :=
  | PType (t : EUMType)
  | PUnit (u : EUMUnit)
  | PStr (s : string).

Section Param.
Local Open Scope string_scope.

(** The dictionary [param], in the order of its keys. *)
Definition param : list (string * list pvalue) :=
  [ ("temp", [PType Temperature; PUnit degree_Celsius; PStr "Temperature";
              PStr "Instantaneous"; PStr "temperature-2m"]);
    ("pres", [PType Pressure; PUnit kilopascal; PStr "Pressure";
              PStr "Instantaneous"; PStr "pressure-surface"]);
    ("grad", [PType Sun_radiation; PUnit kJ_per_meter_pow_2_per_hour;
              PStr "Global radiation"; PStr "MeanStepBackward";
              PStr "global-radiation-flux"]);
    ("precip", [PType Precipitation_Rate; PUnit mm_per_hour;
                PStr "Precipitation rate"; PStr "MeanStepBackward";
                PStr "total-precipitation"]);
    ("ws", [PType Wind_speed; PUnit meter_per_sec; PStr "Wind speed";
            PStr "Instantaneous"; PStr "wind-speed"]);
    ("rh", [PType Relative_humidity; PUnit percent;
            PStr "Relative humidity"; PStr "Instantaneous";
            PStr "relative-humidity-2m"]);
    ("nlwrf", [PType Sun_radiation; PUnit kJ_per_meter_pow_2_per_hour;
               PStr "Net longwave radiation flux"; PStr "MeanStepBackward";
               PStr "net-long-wave-radiation-flux"]);
    ("nswrf", [PType Sun_radiation; PUnit kJ_per_meter_pow_2_per_hour;
               PStr "Net shortwave radiation flux"; PStr "MeanStepBackward";
               PStr "net-short-wave-radiation-flux"]);
    ("makkink", [PType Evapotranspiration_Rate; PUnit mm_per_hour;
                 PStr "Potential evapotranspiration";
                 PStr "MeanStepBackward"]);
    ("penman_monteith", [PType Evapotranspiration_Rate; PUnit mm_per_hour;
                         PStr "Potential evapotranspiration";
                         PStr "MeanStepBackward"]) ].

End Param.

(** ** The export loop *)



(** [for i in range(i, i + n):
       data[i,:,:] = np.flipud(data[i,:,:])]
    ([np.flipud] reverses the rows of the grid; [None] is an [IndexError]). *)
Fixpoint flip_loop (data : field) (i n : nat) : option field :=
  match n with
  | O => Some data
  | S n' =>
      g ← data !! i;
      data' ← assign_at i data (reverse g);
      flip_loop data' (S i) n'
  end.



(** [geometry = mikeio.Grid2D(x=ds.x.data, y=ds.y.data[::-1], ...)]: the
    y coordinates of the exported grid. *)
Definition export_y (ys : list Q) : list Q := reverse ys.

(** ** Cell 3: spatial subsetting *)

(** The part of the dataset that the subsetting reads and writes: the
    coordinates of the two spatial dimensions and the data variables, each of
    dimensions (time, y, x). *)
Record grid_dataset := GridDataset {
  coord_x : list Q;
  coord_y : list Q;
  data_vars : gmap string field }.

Section Subset.
Local Open Scope Q_scope.

(** [np.logical_and(c >= lo, c <= hi)] for one coordinate. *)
Definition in_range (lo hi c : Q) : bool := Qle_bool lo c && Qle_bool c hi.

(** [mask_x = np.logical_and(ds.x >= 440000, ds.x <= 900000)] *)
Definition mask_x (xs : list Q) : list bool := in_range 440000 900000 <$> xs.

(** [mask_y = np.logical_and(ds.y >= 6035000, ds.y <= 6484487)] *)
Definition mask_y (ys : list Q) : list bool :=
  in_range 6035000 6484487 <$> ys.

(** [mask = np.logical_and(mask_x, mask_y)]: the two masks broadcast against
    each other, of dimensions (x, y). *)
Definition mask (xs ys : list Q) : list (list bool) :=
  (λ bx, (λ by', bx && by') <$> mask_y ys) <$> mask_x xs.

(** The labels that [where(mask, drop=True)] keeps along a dimension: those
    at which the mask is true somewhere along the other dimension. *)
Definition keep_x (m : list (list bool)) : list bool :=
  existsb (λ b : bool, b) <$> m.

Definition keep_y (ny : nat) (m : list (list bool)) : list bool :=
  (λ i, existsb (λ row, default false (row !! i)) m) <$> seq 0 ny.

(** [isel] with a boolean indexer. *)
Fixpoint select {A : Type} (keep : list bool) (l : list A) : list A :=
  match keep, l with
  | b :: keep', v :: l' => if b then v :: select keep' l' else select keep' l'
  | _, _ => []
  end.

Definition subset_field (kx ky : list bool) (a : field) : field :=
  (λ g : list (list R), select kx <$> select ky g) <$> a.

(** [ds = ds.where(mask, drop=True)].  The mask is true at every cell that is
    kept (lemma [kept_cells_in_mask]), so no kept sample is replaced. *)
Definition spatial_subset (ds : grid_dataset) : grid_dataset :=
  let m := mask (coord_x ds) (coord_y ds) in
  let kx := keep_x m in
  let ky := keep_y (length (coord_y ds)) m in
  {| coord_x := select kx (coord_x ds);
     coord_y := select ky (coord_y ds);
     data_vars := subset_field kx ky <$> data_vars ds |}.

(** The position of a kept label among the kept labels. *)
Definition rank (keep : list bool) (i : nat) : nat :=
  length (filter (λ b, b = true) (take i keep)).

End Subset.

(** ** The download cell *)

Record api := Api {
  apikey : string; endpoint : string; collection : string;
  instance : string; bbox : string; crs : string;
  parameter : list string; format : string }.

(** What the cell reads and writes outside the notebook: the files of the
    output folder (path to content), the lines printed and the URLs
    requested. *)
Record world := World {
  files : gmap string string;
  stdout : list string;
  requests : list string }.

Section Download.

Definition api_dict (api_key modelrun : string) : api :=
  {| apikey := "api-key=" +:+ api_key;
     endpoint := "https://dmigw.govcloud.dk/v1/forecastedr";
     collection := "/collections/harmonie_dini_sf/";
     instance := "instances/" +:+ modelrun +:+ "/";
     bbox := "bbox?bbox=5.03,53.21,17.5,58.57";
     crs := "crs=crs84";
     parameter :=
       ["temperature-2m"; "wind-speed"; "total-precipitation";
        "pressure-surface"; "relative-humidity-2m";
        "net-short-wave-radiation-flux"; "net-long-wave-radiation-flux";
        "global-radiation-flux"];
     format := "f=NetCDF" |}.

(** The f-string of [entry_url]. *)
Definition entry_url (a : api) (par : string) : string :=
  endpoint a +:+ collection a +:+ instance a +:+ bbox a
  +:+ "&parameter-name=" +:+ par +:+ "&" +:+ crs a +:+ "&" +:+ format a
  +:+ "&" +:+ apikey a.

(** [fr'{os.getcwd()}\output'], for the working directory [cwd]. *)
Definition output_folder (cwd : string) : string := cwd +:+ "\output".

(** [os.path.join(folder, f"harmonie_{par}.nc")], for the separator [sep] of
    the platform and a folder that does not end in a separator, as
    [output_folder] does not. *)
Definition netcdf_file (sep folder par : string) : string :=
  folder +:+ sep +:+ "harmonie_" +:+ par +:+ ".nc".

(** The loop [for par in api_dict["parameter"]] inside [try].  [fetch url] is
    [requests.get(url)] followed by [raise_for_status()]: the content of the
    response, or the message of the [RequestException] raised.  The
    [except] clause prints the message; the loop is left. *)
Fixpoint download_loop (fetch : string → string + string)
    (sep folder : string) (a : api) (pars : list string) (w : world)
    : world :=
  match pars with
  | [] => w
  | par :: rest =>
      let url := entry_url a par in
      match fetch url with
      | inl content =>
          download_loop fetch sep folder a rest
            {| files := <[netcdf_file sep folder par := content]>
                          (files w);
               stdout := stdout w ++ ["Saving harmonie_" +:+ par +:+ ".nc"];
               requests := requests w ++ [url] |}
      | inr e =>
          {| files := files w;
             stdout := stdout w ++ ["Failed to connect to EDR API: " +:+ e];
             requests := requests w ++ [url] |}
      end
  end.

Definition download (fetch : string → string + string)
    (sep folder : string) (a : api) (w : world) : world :=
  download_loop fetch sep folder a (parameter a) w.

End Download.

(** ** Cell 3: renaming the variables *)

#[global] Instance EUMType_eq_dec : EqDecision EUMType.
Proof. solve_decision. Defined.
#[global] Instance EUMUnit_eq_dec : EqDecision EUMUnit.
Proof. solve_decision. Defined.
#[global] Instance pvalue_eq_dec : EqDecision pvalue.
Proof. solve_decision. Defined.

(** A dictionary from list elements to names, written as the list of the
    assignments that built it: a later assignment to a key replaces an
    earlier one. *)
Fixpoint dict_get (d : list (pvalue * string)) (k : pvalue) : option string :=
  match d with
  | [] => None
  | (k', v) :: rest =>
      match dict_get rest k with
      | Some v' => Some v'
      | None => if decide (k' = k) then Some v else None
      end
  end.

(** [{values[-1]: new_name for new_name, values in param.items()
      if len(values) > 4}] *)
Definition rename_dict : list (pvalue * string) :=
  omap (λ e : string * list pvalue,
          if decide (4 < length e.2)%nat
          then (λ old, (old, e.1)) <$> last e.2 else None) param.

(** [name_dict.get(k, k)]: the name of the variable [k] after the renaming. *)
Definition new_name (d : list (pvalue * string)) (k : string) : string :=
  default k (dict_get d (PStr k)).

(** Whether a key of the dictionary names a variable of the dataset. *)
Definition is_variable (ds : dataset) (k : pvalue) : bool :=
  match k with
  | PStr s => bool_decide (is_Some (ds !! s))
  | _ => false
  end.

(** [ds.rename(d)] on the data variables.  [ValueError] ([None]) when a key
    of [d] is not a variable of the dataset, and when two variables would
    get the same name. *)
Definition rename (d : list (pvalue * string)) (ds : dataset)
    : option dataset :=
  if forallb (is_variable ds) d.*1 then
    let renamed := (λ kv, (new_name d kv.1, kv.2)) <$> map_to_list ds in
    if bool_decide (NoDup renamed.*1) then Some (list_to_map renamed)
    else None
  else None.
(** ** Sample inputs *)

Section Samples.
Local Open Scope R_scope.
Local Open Scope string_scope.

(** One cell, four timesteps: the accumulated series 0, 5, 5, 12. *)
Definition sample_series : field := [[[0]]; [[5]]; [[5]]; [[12]]].

(** A dataset of raw provider fields on a 1 x 1 grid with two timesteps. *)
Definition sample_ds : gmap string field :=
  list_to_map
    [("temp", [[[288.15]]; [[288.15]]]);
     ("pres", [[[101325]]; [[101300]]]);
     ("rh", [[[70]]; [[70]]]);
     ("ws", [[[3]]; [[3]]]);
     ("grad", [[[0]]; [[8e6]]]);
     ("nswrf", [[[0]]; [[12e6]]]);
     ("nlwrf", [[[0]]; [[-2e6]]]);
     ("precip", [[[0]]; [[1]]])].

(** The same with the accumulated series as global radiation. *)
Definition sample_cumulative_ds : gmap string field :=
  <["grad" := sample_series]> sample_ds.

End Samples.

Section SampleRun.
Local Open Scope R_scope.

(** A service that reports sunrise at 05:30 and sunset at 19:00 and a
    daylight-saving shift of one hour. *)
Definition sample_svc : services :=
  Services (λ _, Some (Time 5 30 0, Time 19 0 0)) (λ _, Some 3600%Z).

(** The same in standard time. *)
Definition sample_svc_standard : services :=
  Services (λ _, Some (Time 5 30 0, Time 19 0 0)) (λ _, Some 0%Z).

(** Noon and eleven in the evening of one day. *)
Definition sample_timeseries : list timestamp :=
  [Timestamp (Date 2024 6 1) 12 0 0; Timestamp (Date 2024 6 1) 23 0 0].

(** The arrays temp, rh, ws, rn, pres of the end-to-end scenario. *)
Definition sample_store : list field :=
  [ [[[15]]; [[15]]];
    [[[70]]; [[70]]];
    [[[3]]; [[3]]];
    [[[10]]; [[10]]];
    [[[101.3]]; [[101.3]]] ].

End SampleRun.

Section SampleExport.
Local Open Scope R_scope.
Local Open Scope string_scope.


End SampleExport.

Section SampleGrid.
Local Open Scope R_scope.
Local Open Scope string_scope.

(** Two x coordinates, the first west of the bounding box, one y coordinate
    inside it, and one variable with one timestep. *)
Definition sample_grid : grid_dataset :=
  {| coord_x := [430000%Q; 450000%Q];
     coord_y := [6100000%Q];
     data_vars := {["temp" := [[[1; 2]]]]} |}.

End SampleGrid.


Section SampleRaw.
Local Open Scope R_scope.
Local Open Scope string_scope.

(** A dataset as [open_mfdataset] gives it for the eight downloaded files,
    with two timesteps on a 1 x 1 grid. *)
Definition sample_raw : dataset :=
  list_to_map
    [("temperature-2m", [[[288.15]]; [[288.15]]]);
     ("wind-speed", [[[3]]; [[3]]]);
     ("total-precipitation", [[[0]]; [[1]]]);
     ("pressure-surface", [[[101325]]; [[101300]]]);
     ("relative-humidity-2m", [[[70]]; [[70]]]);
     ("net-short-wave-radiation-flux", [[[0]]; [[12e6]]]);
     ("net-long-wave-radiation-flux", [[[0]]; [[-2e6]]]);
     ("global-radiation-flux", [[[0]]; [[8e6]]])].

End SampleRaw.
(** * Properties *)

(** ** Arrays *)

Section ArrayFacts.
Implicit Types (a b v : field) (i y x k : nat).

Lemma cell_amap f a i y x : cell (amap f a) i y x = f <$> cell a i y x.
Proof.
  unfold cell, amap. rewrite list_lookup_fmap.
  destruct (a !! i) as [g|]; simpl; [|done].
  rewrite list_lookup_fmap. destruct (g !! y) as [r|]; simpl; [|done].
  by rewrite list_lookup_fmap.
Qed.

Lemma cell_azip f a b i y x :
  cell (azip f a b) i y x = u ← cell a i y x; w ← cell b i y x; Some (f u w).
Proof.
  unfold cell, azip. rewrite lookup_zip_with.
  destruct (a !! i) as [ga|]; simpl; [|done].
  destruct (b !! i) as [gb|]; simpl; [|by destruct (ga !! y ≫= _)].
  rewrite lookup_zip_with.
  destruct (ga !! y) as [ra|]; simpl; [|done].
  destruct (gb !! y) as [rb|]; simpl; [|by destruct (ra !! x)].
  by rewrite lookup_zip_with.
Qed.

Lemma cell_azip_Some f a b i y x u w :
  cell a i y x = Some u → cell b i y x = Some w →
  cell (azip f a b) i y x = Some (f u w).
Proof. intros Ha Hb. by rewrite cell_azip, Ha, Hb. Qed.

Lemma cell_amap_Some f a i y x u :
  cell a i y x = Some u → cell (amap f a) i y x = Some (f u).
Proof. intros Ha. by rewrite cell_amap, Ha. Qed.

Lemma cell_amap_inv f a i y x w :
  cell (amap f a) i y x = Some w → ∃ u, cell a i y x = Some u ∧ w = f u.
Proof.
  rewrite cell_amap. destruct (cell a i y x) as [u|]; simpl; [|done].
  intros [= <-]. eauto.
Qed.

Lemma cell_lt_length a i y x u : cell a i y x = Some u → (i < length a)%nat.
Proof.
  unfold cell. destruct (a !! i) as [g|] eqn:Hg; simpl; [|done].
  intros _. by eapply lookup_lt_Some.
Qed.

Lemma cell_drop k a i y x : cell (drop k a) i y x = cell a (k + i) y x.
Proof. unfold cell. by rewrite lookup_drop. Qed.

Lemma cell_take k a i y x :
  (i < k)%nat → cell (take k a) i y x = cell a i y x.
Proof. intros Hi. unfold cell. by rewrite lookup_take_lt. Qed.

Lemma cell_assign_from_l k a v i y x :
  (i < k)%nat → (k ≤ length a)%nat →
  cell (assign_from k a v) i y x = cell a i y x.
Proof.
  intros Hi Hk. unfold cell, assign_from.
  rewrite lookup_app_l by (rewrite length_take; lia).
  by rewrite lookup_take_lt.
Qed.

Lemma cell_assign_from_r k a v i y x :
  (k ≤ length a)%nat →
  cell (assign_from k a v) (k + i) y x = cell v i y x.
Proof.
  intros Hk. unfold cell, assign_from.
  rewrite lookup_app_r by (rewrite length_take; lia).
  rewrite length_take. by replace (k + i - k `min` length a)%nat with i by lia.
Qed.

Lemma shape_cell T Y X a i y x :
  shape T Y X a → (i < T)%nat → (y < Y)%nat → (x < X)%nat →
  is_Some (cell a i y x).
Proof.
  intros [HT Hall] Hi Hy Hx. unfold cell.
  destruct (lookup_lt_is_Some_2 a i) as [g Hg]; [lia|].
  rewrite Hg; simpl.
  destruct (proj1 (Forall_lookup _ _) Hall i g Hg) as [HY Hrows].
  destruct (lookup_lt_is_Some_2 g y) as [r Hr]; [lia|].
  rewrite Hr; simpl.
  pose proof (proj1 (Forall_lookup _ _) Hrows y r Hr) as HX.
  apply lookup_lt_is_Some_2. simpl in HX. lia.
Qed.

Lemma amap_amap f g a : amap f (amap g a) = amap (f ∘ g) a.
Proof.
  unfold amap. rewrite <- list_fmap_compose. apply list_fmap_ext.
  intros _ gr _. simpl. rewrite <- list_fmap_compose. apply list_fmap_ext.
  intros _ r _. simpl. by rewrite <- list_fmap_compose.
Qed.

Lemma amap_ext f g a : (∀ u, f u = g u) → amap f a = amap g a.
Proof.
  intros Hfg. unfold amap. apply list_fmap_ext.
  intros _ gr _. apply list_fmap_ext. intros _ r _.
  apply list_fmap_ext. intros _ u _. apply Hfg.
Qed.

End ArrayFacts.

(** ** De-accumulation *)

Section Deaccumulation.
Local Open Scope R_scope.
Implicit Types (data : field) (ds : gmap string field) (var : string).

Lemma deaccumulate_data_length data :
  length (deaccumulate_data data) = length data.
Proof.
  unfold deaccumulate_data, assign_from, azip.
  rewrite length_app, length_take, length_zip_with, length_drop, length_take.
  lia.
Qed.

(** Timestep 0 keeps the first reported grid. *)
Lemma deaccumulate_data_first data :
  deaccumulate_data data !! 0%nat = data !! 0%nat.
Proof. by destruct data. Qed.

(** Every later timestep holds the difference with the previous one. *)
Lemma deaccumulate_data_cell data i y x u w :
  cell data (S i) y x = Some u → cell data i y x = Some w →
  cell (deaccumulate_data data) (S i) y x = Some (u - w).
Proof.
  intros Hu Hw. pose proof (cell_lt_length _ _ _ _ _ Hu) as Hlen.
  unfold deaccumulate_data.
  change (S i) with (1 + i)%nat. rewrite cell_assign_from_r by lia.
  apply cell_azip_Some.
  - by rewrite cell_drop.
  - rewrite cell_take by lia. done.
Qed.

Lemma deaccumulate_var_lookup ds ds' var v :
  deaccumulate_var ds var = Some ds' →
  ds' !! v = if decide (v = var) then deaccumulate_data <$> ds !! v
             else ds !! v.
Proof.
  unfold deaccumulate_var. destruct (ds !! var) as [data|] eqn:Hd; [|done].
  simpl. intros [= <-]. case_decide as Hv.
  - subst v. by rewrite lookup_insert_eq, Hd.
  - by rewrite lookup_insert_ne.
Qed.

(** The loop de-accumulates exactly the listed variables, each once. *)
Lemma for_each_deaccumulate (vars : list string) : ∀ ds ds',
  NoDup vars →
  for_each deaccumulate_var vars ds = Some ds' →
  ∀ v, ds' !! v = if decide (v ∈ vars) then deaccumulate_data <$> ds !! v
                  else ds !! v.
Proof.
  induction vars as [|var vars IH]; intros ds ds' Hnd Hrun v; simpl in Hrun.
  - injection Hrun as <-. by rewrite decide_False by set_solver.
  - apply NoDup_cons in Hnd as [Hnotin Hnd].
    destruct (deaccumulate_var ds var) as [ds1|] eqn:Hstep; [|done].
    simpl in Hrun. rewrite (IH _ _ Hnd Hrun v).
    rewrite (deaccumulate_var_lookup _ _ _ v Hstep).
    destruct (decide (v = var)) as [->|Hne].
    + rewrite (decide_False (P := var ∈ vars)) by done.
      rewrite (decide_True (P := var ∈ var :: vars)) by apply list_elem_of_here.
      done.
    + destruct (decide (v ∈ vars)) as [Hin|Hnin].
      * rewrite decide_True; [done|]. by apply list_elem_of_further.
      * rewrite decide_False; [done|].
        intros [->|Hin]%elem_of_cons; done.
Qed.

(** The loop runs to its end when every listed variable is in the dataset. *)
Lemma for_each_deaccumulate_returns (vars : list string) : ∀ ds,
  (∀ var, var ∈ vars → is_Some (ds !! var)) →
  is_Some (for_each deaccumulate_var vars ds).
Proof.
  induction vars as [|var vars IH]; intros ds Hall; simpl; [eauto|].
  destruct (Hall var) as [data Hd]; [set_solver|].
  assert (deaccumulate_var ds var
          = Some (<[var := deaccumulate_data data]> ds)) as ->
    by (unfold deaccumulate_var; by rewrite Hd).
  simpl. apply IH.
  intros v Hv. destruct (decide (v = var)) as [->|Hne].
  - rewrite lookup_insert_eq. eauto.
  - rewrite lookup_insert_ne by done. apply Hall. set_solver.
Qed.

Lemma accumulated_vars_NoDup : NoDup accumulated_vars.
Proof. by apply (bool_decide_unpack _). Qed.

Lemma deaccumulate_lookup ds ds' v :
  deaccumulate ds = Some ds' →
  ds' !! v = if decide (v ∈ accumulated_vars)
             then deaccumulate_data <$> ds !! v else ds !! v.
Proof.
  intros H. apply for_each_deaccumulate; [apply accumulated_vars_NoDup | exact H].
Qed.


(** The running sum of the increments of a cell gives the cell back. *)
Lemma cumulative_deaccumulate data y x : ∀ i u,
  (∀ j, (j ≤ i)%nat → is_Some (cell data j y x)) →
  cell data i y x = Some u →
  Spec.cumulative (deaccumulate_data data) y x (S i) = Some u.
Proof.
  induction i as [|i IH]; intros u Hall Hu.
  - simpl. unfold cell in *. rewrite deaccumulate_data_first.
    destruct (data !! 0%nat ≫= _) as [w|]; simpl in *; [|done].
    injection Hu as ->. f_equal. lra.
  - destruct (Hall i) as [w Hw]; [lia|].
    change (Spec.cumulative (deaccumulate_data data) y x (S (S i)))
      with (s ← Spec.cumulative (deaccumulate_data data) y x (S i);
            v ← cell (deaccumulate_data data) (S i) y x; Some (s + v)).
    rewrite (IH w) by (auto with lia).
    rewrite (deaccumulate_data_cell _ _ _ _ _ _ Hu Hw). simpl.
    f_equal. lra.
Qed.

End Deaccumulation.

(** ** De-accumulation: the claims *)

Section DeaccumulationClaims.
Local Open Scope R_scope.
Local Open Scope string_scope.




(** C2. De-accumulating a cumulative field and summing the increments of a
    cell from timestep 0 up to timestep i gives back the original value of
    the cell at timestep i (in exact arithmetic), for every cell and every
    timestep of a field of shape (T, Y, X). *)
Theorem deaccumulate_roundtrip (ds ds' : gmap string field) var data
    (T Y X i y x : nat) :
  deaccumulate ds = Some ds' →
  var ∈ accumulated_vars →
  ds !! var = Some data →
  shape T Y X data →
  (i < T)%nat → (y < Y)%nat → (x < X)%nat →
  ∃ data' u, ds' !! var = Some data' ∧
    cell data i y x = Some u ∧
    Spec.cumulative data' y x (S i) = Some u.
Proof.
  intros Hrun Hin Hd Hshape Hi Hy Hx.
  destruct (shape_cell _ _ _ _ i y x Hshape Hi Hy Hx) as [u Hu].
  exists (deaccumulate_data data), u.
  rewrite (deaccumulate_lookup _ _ var Hrun), decide_True, Hd by done.
  split; [done|]. split; [done|].
  apply cumulative_deaccumulate; [|done].
  intros j Hj. apply (shape_cell T Y X); [done|lia|done|done].
Qed.

Lemma deaccumulate_roundtrip_witness :
  ∃ ds' data' u,
    deaccumulate sample_cumulative_ds = Some ds' ∧
    ds' !! "grad" = Some data' ∧
    cell sample_series 3 0 0 = Some u ∧
    Spec.cumulative data' 0 0 4 = Some u.
Proof.
  eexists.
  destruct (deaccumulate_roundtrip sample_cumulative_ds _ "grad" sample_series
              4 1 1 3 0 0 eq_refl) as (data' & u & H1 & H2 & H3).
  - unfold accumulated_vars. apply list_elem_of_here.
  - reflexivity.
  - split; [reflexivity|]. repeat constructor.
  - lia.
  - lia.
  - lia.
  - exists data', u. split; [reflexivity|]. split; [exact H1|].
    split; [exact H2|exact H3].
Defined.

End DeaccumulationClaims.

(** ** Daylight factors *)

Section DaylightFacts.
Implicit Types (svc : services) (ts : timestamp) (timeseries : list timestamp).

Lemma in_daylight_true sunrise sunset hour :
  in_daylight sunrise sunset hour = true ↔
  (sunrise <= hour)%Q ∧ (hour < sunset)%Q.
Proof.
  unfold in_daylight. rewrite andb_true_iff, negb_true_iff, Qle_bool_iff.
  split; intros [H1 H2]; (split; [done|]).
  - apply Qnot_le_lt. intros H%Qle_bool_iff. congruence.
  - destruct (Qle_bool sunset hour) eqn:E; [|done].
    apply Qle_bool_iff in E. by apply Qlt_not_le in H2.
Qed.


Lemma daylight_factor_eq svc ts sunrise sunset dst :
  sunrise_sunset svc (ts_date ts) = Some (sunrise, sunset) →
  tz_dst svc ts = Some dst →
  daylight_factor svc ts
  = Some (decimal_hour sunrise (daylight_offset dst),
          decimal_hour sunset (daylight_offset dst)).
Proof. intros Hr Hd. unfold daylight_factor. by rewrite Hr, Hd. Qed.

Lemma get_daylight_factors_lookup svc timeseries dfs i ts :
  get_daylight_factors svc timeseries = Some dfs →
  timeseries !! i = Some ts →
  ∃ p, dfs !! i = Some p ∧ daylight_factor svc ts = Some p.
Proof.
  intros Hrun%mapM_Some_1 Hts.
  destruct (Forall2_lookup_l _ _ _ _ _ Hrun Hts) as (p & Hp & Hf). eauto.
Qed.

Lemma get_daylight_factors_length svc timeseries dfs :
  get_daylight_factors svc timeseries = Some dfs →
  length dfs = length timeseries.
Proof. intros Hrun%mapM_Some_1. symmetry. by eapply Forall2_length. Qed.

(** The lookups succeed for every timestep exactly when the function
    returns. *)
Lemma get_daylight_factors_returns svc timeseries :
  (∀ ts, ts ∈ timeseries →
     is_Some (sunrise_sunset svc (ts_date ts)) ∧ is_Some (tz_dst svc ts)) →
  is_Some (get_daylight_factors svc timeseries).
Proof.
  intros Hall. apply mapM_is_Some_2, Forall_forall. intros ts Hin. simpl.
  destruct (Hall ts Hin) as [[[sunrise sunset] Hr] [dst Hd]].
  rewrite (daylight_factor_eq _ _ _ _ _ Hr Hd). eauto.
Qed.

End DaylightFacts.

(** ** The soil heat flux loop and the store *)

Section StoreFacts.
Local Open Scope R_scope.
Implicit Types (h : list field) (rn G : nat) (vrn vG : field).

Lemma gscale_cell k (g : list (list R)) (a : field) i y x u :
  a !! i = Some (gscale k g) →
  g !! y ≫= (.!! x) = Some u →
  cell a i y x = Some (k * u).
Proof.
  intros Ha Hu. unfold cell. rewrite Ha. simpl. unfold gscale.
  rewrite list_lookup_fmap. destruct (g !! y) as [r|]; simpl in *; [|done].
  by rewrite list_lookup_fmap, Hu.
Qed.

Lemma assign_at_Some i (a : field) g a' :
  assign_at i a g = Some a' → (i < length a)%nat ∧ a' = <[i := g]> a.
Proof. unfold assign_at. case_decide; [|done]. by intros [= <-]. Qed.

(** The loop writes to the object [G] only, and there only the timesteps it
    visits; at a visited timestep [G] holds the scaled grid of [rn]. *)
Lemma G_flux_loop_inv rn G timeseries vrn :
  rn ≠ G → ∀ dfs h i vG h',
  h !! rn = Some vrn → h !! G = Some vG →
  G_flux_loop h rn G timeseries dfs i = Some h' →
  ∃ vG', h' = <[G := vG']> h ∧ length vG' = length vG ∧
    (∀ j, (j < i)%nat → vG' !! j = vG !! j) ∧
    (∀ k sunrise sunset, dfs !! k = Some (sunrise, sunset) →
       ∃ ts g, timeseries !! (i + k)%nat = Some ts ∧
         vrn !! (i + k)%nat = Some g ∧
         vG' !! (i + k)%nat
         = Some (gscale (G_factor sunrise sunset (hour_of_day ts)) g)).
Proof.
  intros Hne. induction dfs as [|[sunrise sunset] dfs IH];
    intros h i vG h' Hrn HG Hrun; simpl in Hrun.
  - injection Hrun as <-. exists vG. rewrite list_insert_id by done.
    repeat split. intros k ? ? Hk. by rewrite lookup_nil in Hk.
  - destruct (timeseries !! i) as [ts|] eqn:Hts; simpl in Hrun; [|done].
    rewrite Hrn in Hrun. simpl in Hrun.
    destruct (vrn !! i) as [g|] eqn:Hg; simpl in Hrun; [|done].
    rewrite HG in Hrun. simpl in Hrun.
    destruct (assign_at i vG _) as [vG1|] eqn:Hassign; simpl in Hrun; [|done].
    apply assign_at_Some in Hassign as [Hi ->].
    pose proof (lookup_lt_Some _ _ _ HG) as HGlt.
    edestruct (IH _ _ _ _ ltac:(by rewrite list_lookup_insert_ne)
                 ltac:(by apply list_lookup_insert_eq) Hrun)
      as (vG' & -> & Hlen & Hbefore & Hvisited).
    exists vG'. rewrite list_insert_insert_eq, Hlen, length_insert.
    repeat split.
    + intros j Hj. rewrite Hbefore by lia.
      by rewrite list_lookup_insert_ne by lia.
    + intros [|k] sr ss Hk; simpl in Hk.
      * injection Hk as -> ->. exists ts, g.
        rewrite Nat.add_0_r. repeat split; [done..|].
        rewrite Hbefore by lia. by apply list_lookup_insert_eq.
      * replace (i + S k)%nat with (S i + k)%nat by lia. by apply Hvisited.
Qed.

(** The loop runs to its end when [rn] and [G] have a grid for every
    timestep of the time axis. *)
Lemma G_flux_loop_returns rn G timeseries vrn :
  rn ≠ G → ∀ dfs h i vG,
  h !! rn = Some vrn → h !! G = Some vG →
  (i + length dfs ≤ length timeseries)%nat →
  (i + length dfs ≤ length vrn)%nat →
  (i + length dfs ≤ length vG)%nat →
  is_Some (G_flux_loop h rn G timeseries dfs i).
Proof.
  intros Hne. induction dfs as [|[sunrise sunset] dfs IH];
    intros h i vG Hrn HG Hts Hlrn HlG; simpl in *; [eauto|].
  destruct (lookup_lt_is_Some_2 timeseries i) as [ts ->]; [lia|].
  destruct (lookup_lt_is_Some_2 vrn i) as [g Hg]; [lia|].
  rewrite Hrn. simpl. rewrite Hg, HG. simpl.
  unfold assign_at. rewrite decide_True by lia. simpl.
  pose proof (lookup_lt_Some _ _ _ HG) as HGlt.
  eapply IH.
  - by rewrite list_lookup_insert_ne.
  - by apply list_lookup_insert_eq.
  - lia.
  - lia.
  - rewrite length_insert. lia.
Qed.

(** What a run of [calculate_penman_monteith] that returns has done: the
    store is the old store followed by the object [G], and the result is the
    equation evaluated on the arrays of the store and on [G]. *)
Lemma calculate_penman_monteith_inv svc h temp rh ws rn pres timeseries h' out :
  calculate_penman_monteith svc h temp rh ws rn pres timeseries
  = Some (h', out) →
  ∃ vtemp vrh vws vrn vpres vG dfs,
    h !! rn = Some vrn ∧
    get_daylight_factors svc timeseries = Some dfs ∧
    h' = h ++ [vG] ∧
    length vG = length vrn ∧
    h' !! temp = Some vtemp ∧ h' !! rh = Some vrh ∧ h' !! ws = Some vws ∧
    h' !! pres = Some vpres ∧
    out = penman_monteith_equation vtemp vrh vws vrn vpres vG ∧
    (∀ i sunrise sunset, dfs !! i = Some (sunrise, sunset) →
       ∃ ts g, timeseries !! i = Some ts ∧ vrn !! i = Some g ∧
         vG !! i = Some (gscale (G_factor sunrise sunset (hour_of_day ts)) g)).
Proof.
  unfold calculate_penman_monteith, deepcopy. intros Hrun.
  destruct (h !! rn) as [vrn|] eqn:Hrn; simpl in Hrun; [|done].
  destruct (get_daylight_factors svc timeseries) as [dfs|] eqn:Hdfs;
    simpl in Hrun; [|done].
  destruct (G_flux_loop _ _ _ _ _ _) as [h1|] eqn:Hloop; simpl in Hrun; [|done].
  pose proof (lookup_lt_Some _ _ _ Hrn) as Hlt.
  edestruct (G_flux_loop_inv rn (length h) timeseries vrn ltac:(lia)
               dfs (h ++ [vrn]) 0%nat vrn h1)
    as (vG & -> & Hlen & _ & Hvisited); [| |exact Hloop|].
  { by rewrite lookup_app_l. }
  { by rewrite lookup_app_r, Nat.sub_diag by lia. }
  assert (<[length h := vG]> (h ++ [vrn]) = h ++ [vG]) as Hstore.
  { rewrite insert_app_r_alt, Nat.sub_diag by lia. done. }
  rewrite Hstore in Hrun.
  destruct ((h ++ [vG]) !! temp) as [vtemp|] eqn:Htemp; simpl in Hrun; [|done].
  destruct ((h ++ [vG]) !! rh) as [vrh|] eqn:Hrh; simpl in Hrun; [|done].
  destruct ((h ++ [vG]) !! ws) as [vws|] eqn:Hws; simpl in Hrun; [|done].
  rewrite (lookup_app_l_Some _ _ _ _ Hrn) in Hrun. simpl in Hrun.
  destruct ((h ++ [vG]) !! pres) as [vpres|] eqn:Hpres; simpl in Hrun; [|done].
  rewrite lookup_app_r, Nat.sub_diag in Hrun by lia. simpl in Hrun.
  injection Hrun as <- <-.
  exists vtemp, vrh, vws, vrn, vpres, vG, dfs.
  repeat split; done.
Qed.

End StoreFacts.

(** ** The equations, cell by cell *)

Section EquationFacts.
Local Open Scope R_scope.
Implicit Types (temp rs rh ws rn pres G out : field) (i y x : nat).

(** Evaluates the cell of an element-wise expression from the cells of its
    operands. *)
Ltac cell_eval :=
  repeat first
    [ eassumption | eapply cell_amap_Some | eapply cell_azip_Some ].

Ltac unfold_arith :=
  unfold clip_min0, smul, mulc, divc, addc, subc, csub, cadd, square, aexp,
    aadd, asub, amul, adiv.

Lemma calculate_makkink_cell temp rs pres i y x T r P :
  cell temp i y x = Some T →
  cell rs i y x = Some r →
  cell pres i y x = Some P →
  cell (calculate_makkink temp rs pres) i y x = Some (Spec.makkink T r P).
Proof.
  intros HT Hr HP. unfold calculate_makkink. unfold_arith.
  etrans; [cell_eval|]. reflexivity.
Qed.

Lemma penman_monteith_equation_cell temp rh ws rn pres G i y x T RH w r P g :
  cell temp i y x = Some T →
  cell rh i y x = Some RH →
  cell ws i y x = Some w →
  cell rn i y x = Some r →
  cell pres i y x = Some P →
  cell G i y x = Some g →
  cell (penman_monteith_equation temp rh ws rn pres G) i y x
  = Some (Spec.penman_monteith T RH w r P g).
Proof.
  intros HT HRH Hw Hr HP Hg. unfold penman_monteith_equation. unfold_arith.
  etrans; [cell_eval|].
  unfold Spec.penman_monteith, Spec.slope, Spec.psychrometric,
    Spec.saturation_pressure, Spec.actual_pressure, Spec.wind_2m,
    Spec.latent_heat, CP, pet_factor.
  unfold Spec.saturation_pressure. do 2 f_equal. unfold Rdiv. ring.
Qed.

Lemma clip_min0_cell_nonneg (a : field) i y x v :
  cell (clip_min0 a) i y x = Some v → 0 <= v.
Proof.
  unfold clip_min0. intros (u & _ & ->)%cell_amap_inv. apply Rmax_l.
Qed.



(** An array of the store before the call is the same array after it. *)
Lemma store_extension_lookup (h : list field) (vG v : field) (l : nat) :
  h !! l = Some v → (h ++ [vG]) !! l = Some v.
Proof. apply lookup_app_l_Some. Qed.

(** The call returns when its arrays are in the store, the lookups succeed
    for every timestep and [rn] has a grid for every timestep. *)
Lemma calculate_penman_monteith_returns svc (h : list field)
    (temp rh ws rn pres : nat) timeseries vrn :
  is_Some (h !! temp) → is_Some (h !! rh) → is_Some (h !! ws) →
  h !! rn = Some vrn → is_Some (h !! pres) →
  (∀ ts, ts ∈ timeseries →
     is_Some (sunrise_sunset svc (ts_date ts)) ∧ is_Some (tz_dst svc ts)) →
  (length timeseries ≤ length vrn)%nat →
  is_Some (calculate_penman_monteith svc h temp rh ws rn pres timeseries).
Proof.
  intros [vtemp Htemp] [vrh Hrh] [vws Hws] Hrn [vpres Hpres] Hsvc Hlen.
  destruct (get_daylight_factors_returns _ _ Hsvc) as [dfs Hdfs].
  pose proof (get_daylight_factors_length _ _ _ Hdfs) as Hdl.
  pose proof (lookup_lt_Some _ _ _ Hrn) as Hlt.
  assert ((h ++ [vrn]) !! rn = Some vrn) as Hrn1 by by rewrite lookup_app_l.
  assert ((h ++ [vrn]) !! length h = Some vrn) as HG1
    by by rewrite lookup_app_r, Nat.sub_diag by lia.
  destruct (G_flux_loop_returns rn (length h) timeseries vrn ltac:(lia)
              dfs (h ++ [vrn]) 0%nat vrn Hrn1 HG1) as [h1 Hloop]; [lia..|].
  destruct (G_flux_loop_inv rn (length h) timeseries vrn ltac:(lia)
              dfs (h ++ [vrn]) 0%nat vrn h1 Hrn1 HG1 Hloop)
    as (vG & -> & _).
  rewrite insert_app_r_alt, Nat.sub_diag in Hloop by lia. simpl in Hloop.
  unfold calculate_penman_monteith, deepcopy.
  rewrite Hrn. simpl. rewrite Hdfs. simpl. rewrite Hloop. simpl.
  rewrite (store_extension_lookup _ vG _ _ Htemp). simpl.
  rewrite (store_extension_lookup _ vG _ _ Hrh). simpl.
  rewrite (store_extension_lookup _ vG _ _ Hws). simpl.
  rewrite (store_extension_lookup _ vG _ _ Hrn). simpl.
  rewrite (store_extension_lookup _ vG _ _ Hpres). simpl.
  rewrite lookup_app_r, Nat.sub_diag by lia. simpl. eauto.
Qed.

End EquationFacts.

(** ** Bounds on the exponential and the logarithm of the scenario *)

Section Numeric.
Local Open Scope R_scope.

Lemma exp_double x : exp (2 * x) = exp x * exp x.
Proof. replace (2 * x) with (x + x) by lra. apply exp_plus. Qed.

Lemma exp_upper_small x : 0 <= x < 1 → exp x <= / (1 - x).
Proof.
  intros [H0 H1].
  pose proof (exp_ineq1_le (- x)) as Hlow. rewrite exp_Ropp in Hlow.
  pose proof (exp_pos x) as Hpos.
  apply Rinv_le_contravar in Hlow; [|lra].
  by rewrite Rinv_inv in Hlow.
Qed.

Lemma exp_temp15_upper : exp (17.27 * 15 / (15 + 237.3)) <= 3.1.
Proof.
  apply Rle_trans with (exp (1 + 0.03)).
  - destruct (Rle_lt_or_eq_dec (17.27 * 15 / (15 + 237.3)) (1 + 0.03))
      as [Hlt| ->]; [lra| |lra].
    left. by apply exp_increasing.
  - rewrite exp_plus. pose proof exp_le_3 as H3.
    pose proof (exp_upper_small 0.03 ltac:(lra)) as Hs.
    pose proof (exp_pos 1). pose proof (exp_pos 0.03).
    assert (/ (1 - 0.03) <= 1.031) by (apply Rle_trans with (100 / 97); lra).
    nra.
Qed.

Lemma ln_wind_upper : ln (67.8 * 10 - 5.42) <= 8.
Proof.
  assert (67.8 * 10 - 5.42 < exp 8) as H.
  { pose proof (exp_ineq1_le (1/4)) as Hq.
    pose proof (exp_double (1/4)) as H1.
    replace (2 * (1/4)) with (1/2) in H1 by lra.
    pose proof (exp_double (1/2)) as H2.
    replace (2 * (1/2)) with 1 in H2 by lra.
    pose proof (exp_double 1) as H3. replace (2 * 1) with 2 in H3 by lra.
    pose proof (exp_double 2) as H4. replace (2 * 2) with 4 in H4 by lra.
    pose proof (exp_double 4) as H5. replace (2 * 4) with 8 in H5 by lra.
    assert (1.56 <= exp (1/2)) by nra.
    assert (2.43 <= exp 1) by nra.
    assert (5.9 <= exp 2) by nra.
    assert (34.8 <= exp 4) by nra.
    nra. }
  apply Rlt_le. apply exp_lt_inv. rewrite exp_ln; lra.
Qed.

Lemma ln_wind_pos : 0 < ln (67.8 * 10 - 5.42).
Proof. rewrite <- ln_1. apply ln_increasing; lra. Qed.

Lemma div_between (n d hi : R) :
  0 < d → 0 < n → n < hi * d → 0 < n / d < hi.
Proof.
  intros Hd Hn Hlt. split; [by apply Rdiv_lt_0_compat|].
  apply Rmult_lt_reg_r with d; [done|].
  unfold Rdiv. rewrite Rmult_assoc, Rinv_l by lra. lra.
Qed.

Lemma div_eq_mult (n d q : R) : d ≠ 0 → q = n / d → q * d = n.
Proof. intros Hd ->. field. done. Qed.

Lemma Rmax0_between (v hi : R) : 0 < v < hi → 0 < Rmax 0 v < hi.
Proof. intros [H0 H1]. rewrite Rmax_right by lra. done. Qed.

Lemma makkink_scenario_bounds : 0 < Spec.makkink 15 8 101.3 < 1.5.
Proof.
  unfold Spec.makkink, Spec.slope, Spec.psychrometric,
    Spec.saturation_pressure, Spec.latent_heat.
  apply Rmax0_between.
  pose proof exp_temp15_upper as HE.
  pose proof (exp_pos (17.27 * 15 / (15 + 237.3))) as HE0.
  set (E := exp (17.27 * 15 / (15 + 237.3))) in *.
  set (s := 4098 * (0.6108 * E) / (15 + 237.3) ^ 2).
  set (γ := 1.013e-3 * 101.3 / (0.622 * (2.501 - 0.002361 * 15))).
  assert (s * (15 + 237.3) ^ 2 = 4098 * (0.6108 * E)) as Hs
    by (apply div_eq_mult; [lra|done]).
  assert (γ * (0.622 * (2.501 - 0.002361 * 15)) = 1.013e-3 * 101.3) as Hγ
    by (apply div_eq_mult; [lra|done]).
  clearbody s γ.
  assert (0 < s <= 0.122) as Hsb by nra.
  assert (0.0669 < γ < 0.067) as Hγb by nra.
  apply div_between; nra.
Qed.

Lemma penman_monteith_scenario_bounds :
  0 < Spec.penman_monteith 15 70 3 10 101.3 (0.1 * 10) < 2.
Proof.
  unfold Spec.penman_monteith, Spec.slope, Spec.psychrometric,
    Spec.actual_pressure, Spec.wind_2m, Spec.latent_heat.
  unfold Spec.saturation_pressure.
  apply Rmax0_between.
  pose proof exp_temp15_upper as HE.
  pose proof (exp_pos (17.27 * 15 / (15 + 237.3))) as HE0.
  pose proof ln_wind_upper as HL. pose proof ln_wind_pos as HL0.
  set (E := exp (17.27 * 15 / (15 + 237.3))) in *.
  set (L := ln (67.8 * 10 - 5.42)) in *.
  set (s := 4098 * (0.6108 * E) / (15 + 237.3) ^ 2).
  set (γ := 1.013e-3 * 101.3 / (0.622 * (2.501 - 0.002361 * 15))).
  set (p := 37 / (15 + 273)).
  set (q := 4.87 / L).
  assert (s * (15 + 237.3) ^ 2 = 4098 * (0.6108 * E)) as Hs
    by (apply div_eq_mult; [lra|done]).
  assert (γ * (0.622 * (2.501 - 0.002361 * 15)) = 1.013e-3 * 101.3) as Hγ
    by (apply div_eq_mult; [lra|done]).
  assert (p * (15 + 273) = 37) as Hp by (apply div_eq_mult; [lra|done]).
  assert (q * L = 4.87) as Hq by (apply div_eq_mult; [lra|done]).
  assert (0 < q) as Hq0 by (apply Rdiv_lt_0_compat; lra).
  clearbody s γ p q E L.
  assert (0 < s <= 0.1219) as Hsb by nra.
  assert (0.0669 < γ < 0.067) as Hγb by nra.
  assert (0.128 < p < 0.1285) as Hpb by nra.
  assert (0.6087 <= q) as Hqb by nra.
  set (u2 := q * 3). assert (1.826 <= u2) as Hu by (unfold u2; lra).
  clearbody u2. clear Hq Hqb Hq0 HL HL0 q L.
  set (d := 0.6108 * E - 70 / 100 * (0.6108 * E)).
  assert (0 < d <= 0.5681) as Hd by (unfold d; lra).
  clearbody d.
  assert (0 < p * d <= 0.0731) as Hk by nra.
  assert (0.1221 <= γ * u2) as Hgu by nra.
  assert (γ * p * u2 * d = (γ * u2) * (p * d)) as -> by ring.
  set (gu := γ * u2) in *. set (k := p * d) in *.
  assert (γ * (1 + 0.34 * u2) = γ + 0.34 * gu) as -> by (unfold gu; ring).
  clearbody gu k.
  apply div_between; nra.
Qed.

End Numeric.

(** ** The call of [calculate_penman_monteith] as a whole *)

Section CallFacts.
Local Open Scope R_scope.

Lemma G_factor_daylight sunrise sunset hour :
  (sunrise <= hour)%Q → (hour < sunset)%Q →
  G_factor sunrise sunset hour = 0.1.
Proof.
  intros H1 H2. unfold G_factor.
  by rewrite (proj2 (in_daylight_true _ _ _) (conj H1 H2)).
Qed.


Lemma calculate_penman_monteith_spec svc (h : list field)
    (temp rh ws rn pres : nat) timeseries h' out :
  calculate_penman_monteith svc h temp rh ws rn pres timeseries
  = Some (h', out) →
  ∃ vtemp vrh vws vrn vpres vG,
    h !! rn = Some vrn ∧ h' = h ++ [vG] ∧
    h' !! temp = Some vtemp ∧ h' !! rh = Some vrh ∧ h' !! ws = Some vws ∧
    h' !! pres = Some vpres ∧
    out = penman_monteith_equation vtemp vrh vws vrn vpres vG ∧
    ∀ i ts sunrise sunset y x u,
      timeseries !! i = Some ts →
      daylight_factor svc ts = Some (sunrise, sunset) →
      cell vrn i y x = Some u →
      cell vG i y x = Some (G_factor sunrise sunset (hour_of_day ts) * u).
Proof.
  intros Hrun.
  destruct (calculate_penman_monteith_inv _ _ _ _ _ _ _ _ _ _ Hrun)
    as (vtemp & vrh & vws & vrn & vpres & vG & dfs & Hrn & Hdfs & Hh' & _ &
        Htemp & Hrh & Hws & Hpres & Hout & HG).
  exists vtemp, vrh, vws, vrn, vpres, vG. repeat split; try done.
  intros i ts sunrise sunset y x u Hts Hdf Hu.
  destruct (get_daylight_factors_lookup _ _ _ _ _ Hdfs Hts) as (p & Hp & Hp').
  rewrite Hdf in Hp'. injection Hp' as <-.
  destruct (HG _ _ _ Hp) as (ts' & g & Hts' & Hg & HvG).
  rewrite Hts in Hts'. injection Hts' as <-.
  apply (gscale_cell _ g); [done|].
  unfold cell in Hu. by rewrite Hg in Hu.
Qed.

(** The arrays read after the loop are the arrays passed in. *)
Lemma store_extension_read (h : list field) (vG v v' : field) (l : nat) :
  h !! l = Some v → (h ++ [vG]) !! l = Some v' → v' = v.
Proof.
  intros Hl Hl'. rewrite (store_extension_lookup _ vG _ _ Hl) in Hl'.
  by injection Hl'.
Qed.

End CallFacts.

(** ** Potential evapotranspiration: the claims *)

Section PETClaims.
Local Open Scope R_scope.



(** C4. For a cell with temperature T, global radiation rs and pressure P,
    [calculate_makkink] returns max(0, (0.65·s·rs) / (λ·(s+γ))) with
    λ = 2.501 − 0.002361·T, γ = (1.013e-3·P)/(0.622·λ),
    es = 0.6108·exp(17.27·T/(T+237.3)) and s = 4098·es/(T+237.3)². *)
Theorem makkink_matches_equation (temp rs pres : field) i y x (T r P : R) :
  cell temp i y x = Some T →
  cell rs i y x = Some r →
  cell pres i y x = Some P →
  let lam := 2.501 - 0.002361 * T in
  let γ := (1.013e-3 * P) / (0.622 * lam) in
  let es := 0.6108 * exp (17.27 * T / (T + 237.3)) in
  let s := 4098 * es / (T + 237.3) ^ 2 in
  cell (calculate_makkink temp rs pres) i y x
  = Some (Rmax 0 ((0.65 * s * r) / (lam * (s + γ)))).
Proof. intros HT Hr HP. by apply calculate_makkink_cell. Qed.

Lemma makkink_matches_equation_witness :
  ∃ v, cell (calculate_makkink [[[15]]] [[[8]]] [[[101.3]]]) 0 0 0 = Some v.
Proof.
  eexists.
  apply (makkink_matches_equation [[[15]]] [[[8]]] [[[101.3]]] 0 0 0
           15 8 101.3 eq_refl eq_refl eq_refl).
Defined.

(** C5. For a cell with temperature T, relative humidity RH, wind speed ws,
    net radiation rn, pressure P and soil heat flux G (the cell of the array
    G that the function built), [calculate_penman_monteith] returns
    max(0, [0.408·s·(rn−G) + γ·(37/(T+273))·u2·(es−ea)] / [s + γ·(1+0.34·u2)])
    with ea = (RH/100)·es, u2 = (4.87/ln(67.8·10 − 5.42))·ws and λ, γ, es, s
    as in the Makkink equation. *)
Theorem penman_monteith_matches_equation svc (h : list field)
    (temp rh ws rn pres : nat) timeseries h' out
    (vtemp vrh vws vrn vpres : field) :
  h !! temp = Some vtemp → h !! rh = Some vrh → h !! ws = Some vws →
  h !! rn = Some vrn → h !! pres = Some vpres →
  calculate_penman_monteith svc h temp rh ws rn pres timeseries
  = Some (h', out) →
  ∃ vG, h' !! length h = Some vG ∧
    ∀ i y x (T RH w r P G : R),
      cell vtemp i y x = Some T → cell vrh i y x = Some RH →
      cell vws i y x = Some w → cell vrn i y x = Some r →
      cell vpres i y x = Some P → cell vG i y x = Some G →
      let lam := 2.501 - 0.002361 * T in
      let γ := (1.013e-3 * P) / (0.622 * lam) in
      let es := 0.6108 * exp (17.27 * T / (T + 237.3)) in
      let s := 4098 * es / (T + 237.3) ^ 2 in
      let ea := (RH / 100) * es in
      let u2 := (4.87 / ln (67.8 * 10 - 5.42)) * w in
      cell out i y x
      = Some (Rmax 0 ((0.408 * s * (r - G)
                       + γ * (37 / (T + 273)) * u2 * (es - ea))
                      / (s + γ * (1 + 0.34 * u2)))).
Proof.
  intros Htemp Hrh Hws Hrn Hpres Hrun.
  destruct (calculate_penman_monteith_spec _ _ _ _ _ _ _ _ _ _ Hrun)
    as (vtemp' & vrh' & vws' & vrn' & vpres' & vG & Hrn' & -> &
        Htemp' & Hrh' & Hws' & Hpres' & -> & _).
  rewrite Hrn in Hrn'. injection Hrn' as <-.
  apply (store_extension_read _ _ _ _ _ Htemp) in Htemp' as ->.
  apply (store_extension_read _ _ _ _ _ Hrh) in Hrh' as ->.
  apply (store_extension_read _ _ _ _ _ Hws) in Hws' as ->.
  apply (store_extension_read _ _ _ _ _ Hpres) in Hpres' as ->.
  exists vG. split.
  { by rewrite lookup_app_r, Nat.sub_diag by lia. }
  intros i y x T RH w r P G HT HRH Hw Hr HP HG.
  by apply penman_monteith_equation_cell.
Qed.

Lemma penman_monteith_matches_equation_witness :
  ∃ h' out vG, calculate_penman_monteith sample_svc sample_store 0 1 2 3 4
                 sample_timeseries = Some (h', out) ∧
    h' !! 5%nat = Some vG.
Proof.
  do 2 eexists.
  destruct (penman_monteith_matches_equation sample_svc sample_store
              0 1 2 3 4 sample_timeseries _ _ _ _ _ _ _
              eq_refl eq_refl eq_refl eq_refl eq_refl eq_refl)
    as (vG & HvG & _).
  exists vG. split; [reflexivity|exact HvG].
Defined.

End PETClaims.

(** ** Soil heat flux, frame and daylight: the claims *)

Section FluxClaims.
Local Open Scope R_scope.



(** C10. [calculate_penman_monteith] does not write to its argument [rn]:
    the soil heat flux is written to a new object, a deep copy of [rn]; every
    array of the store, [rn] among them, holds after the call the samples it
    held before, and the term (rn − G) of the result reads the samples that
    [rn] had on entry. *)
Theorem penman_monteith_preserves_rn svc (h : list field)
    (temp rh ws rn pres : nat) timeseries h' out :
  calculate_penman_monteith svc h temp rh ws rn pres timeseries
  = Some (h', out) →
  ∃ vrn vG,
    h !! rn = Some vrn ∧ h' !! rn = Some vrn ∧
    h' = h ++ [vG] ∧
    (∀ l v, h !! l = Some v → h' !! l = Some v) ∧
    ∃ vtemp vrh vws vpres,
      h' !! temp = Some vtemp ∧ h' !! rh = Some vrh ∧ h' !! ws = Some vws ∧
      h' !! pres = Some vpres ∧
      out = penman_monteith_equation vtemp vrh vws vrn vpres vG.
Proof.
  intros Hrun.
  destruct (calculate_penman_monteith_spec _ _ _ _ _ _ _ _ _ _ Hrun)
    as (vtemp & vrh & vws & vrn & vpres & vG & Hrn & -> &
        Htemp & Hrh & Hws & Hpres & -> & _).
  exists vrn, vG. split; [done|].
  split; [by apply store_extension_lookup|]. split; [done|].
  split; [intros l v; apply store_extension_lookup|].
  by exists vtemp, vrh, vws, vpres.
Qed.

Lemma penman_monteith_preserves_rn_witness :
  ∃ h' out, calculate_penman_monteith sample_svc sample_store 0 1 2 3 4
              sample_timeseries = Some (h', out) ∧
    h' !! 3%nat = sample_store !! 3%nat.
Proof.
  do 2 eexists.
  destruct (penman_monteith_preserves_rn sample_svc sample_store 0 1 2 3 4
              sample_timeseries _ _ eq_refl)
    as (vrn & vG & Hrn & Hrn' & _).
  split; [reflexivity|]. by rewrite Hrn', Hrn.
Defined.

(** C9. In the end-to-end scenario (temperature 15 °C, relative humidity
    70 %, wind speed 3 m/s, net radiation 10 MJ·m⁻²·step⁻¹ at a timestep
    whose hour of day lies in [sunrise, sunset), pressure 101.3 kPa) the
    Penman-Monteith value lies strictly between 0 and 2; with the same
    temperature and pressure and rs = 8 MJ·m⁻²·step⁻¹ the Makkink value lies
    strictly between 0 and 1.5. *)
Theorem pet_scenario_plausible :
  (∀ svc (h : list field) (temp rh ws rn pres : nat) timeseries h' out
     (vtemp vrh vws vrn vpres : field) i y x ts sunrise sunset,
     h !! temp = Some vtemp → h !! rh = Some vrh → h !! ws = Some vws →
     h !! rn = Some vrn → h !! pres = Some vpres →
     calculate_penman_monteith svc h temp rh ws rn pres timeseries
     = Some (h', out) →
     timeseries !! i = Some ts →
     daylight_factor svc ts = Some (sunrise, sunset) →
     (sunrise <= hour_of_day ts)%Q → (hour_of_day ts < sunset)%Q →
     cell vtemp i y x = Some 15 → cell vrh i y x = Some 70 →
     cell vws i y x = Some 3 → cell vrn i y x = Some 10 →
     cell vpres i y x = Some 101.3 →
     ∃ v, cell out i y x = Some v ∧ 0 < v < 2) ∧
  (∀ (temp rs pres : field) i y x,
     cell temp i y x = Some 15 → cell rs i y x = Some 8 →
     cell pres i y x = Some 101.3 →
     ∃ v, cell (calculate_makkink temp rs pres) i y x = Some v ∧
          0 < v < 1.5).
Proof.
  split.
  - intros svc h temp rh ws rn pres timeseries h' out vtemp vrh vws vrn vpres
      i y x ts sunrise sunset Htemp Hrh Hws Hrn Hpres Hrun Hts Hdf Hrise Hset
      HT HRH Hw Hr HP.
    destruct (calculate_penman_monteith_spec _ _ _ _ _ _ _ _ _ _ Hrun)
      as (vtemp' & vrh' & vws' & vrn' & vpres' & vG & Hrn' & -> &
          Htemp' & Hrh' & Hws' & Hpres' & -> & HG).
    rewrite Hrn in Hrn'. injection Hrn' as <-.
    apply (store_extension_read _ _ _ _ _ Htemp) in Htemp' as ->.
    apply (store_extension_read _ _ _ _ _ Hrh) in Hrh' as ->.
    apply (store_extension_read _ _ _ _ _ Hws) in Hws' as ->.
    apply (store_extension_read _ _ _ _ _ Hpres) in Hpres' as ->.
    pose proof (HG _ _ _ _ _ _ _ Hts Hdf Hr) as HGcell.
    rewrite (G_factor_daylight _ _ _ Hrise Hset) in HGcell.
    exists (Spec.penman_monteith 15 70 3 10 101.3 (0.1 * 10)).
    split; [by apply penman_monteith_equation_cell|].
    apply penman_monteith_scenario_bounds.
  - intros temp rs pres i y x HT Hr HP.
    exists (Spec.makkink 15 8 101.3).
    split; [by apply calculate_makkink_cell|].
    apply makkink_scenario_bounds.
Qed.

Lemma pet_scenario_plausible_witness :
  ∃ h' out v u,
    calculate_penman_monteith sample_svc sample_store 0 1 2 3 4
      sample_timeseries = Some (h', out) ∧
    cell out 0 0 0 = Some v ∧ 0 < v < 2 ∧
    cell (calculate_makkink [[[15]]] [[[8]]] [[[101.3]]]) 0 0 0 = Some u ∧
    0 < u < 1.5.
Proof.
  destruct pet_scenario_plausible as [Hpm Hmk].
  do 2 eexists.
  destruct (Hpm sample_svc sample_store 0%nat 1%nat 2%nat 3%nat 4%nat
              sample_timeseries _ _ _ _ _ _ _ 0%nat 0%nat 0%nat _ _ _
              eq_refl eq_refl eq_refl eq_refl eq_refl eq_refl eq_refl eq_refl)
    as (v & Hv & Hbounds); try reflexivity.
  { by apply Qle_bool_iff. }
  destruct (Hmk [[[15]]] [[[8]]] [[[101.3]]] 0%nat 0%nat 0%nat
              eq_refl eq_refl eq_refl)
    as (u & Hu & Hubounds).
  exists v, u. split; [reflexivity|]. done.
Defined.

End FluxClaims.

Section DaylightClaims.
Local Open Scope Q_scope.

(** C8. For every timestamp of the time axis [get_daylight_factors] adds 1
    hour to the sunrise and sunset decimal hours when the timezone reports no
    daylight-saving shift at that timestamp (standard time) and 2 hours when
    it reports one; the pair it returns for the timestamp is
    (sunrise.hour + sunrise.minute/60 + offset,
     sunset.hour + sunset.minute/60 + offset).  The function returns whenever
    the sunrise/sunset lookup and the timezone lookup succeed for every
    timestamp. *)
Theorem daylight_saving_offset svc (timeseries : list timestamp) :
  (∀ ts, ts ∈ timeseries →
     is_Some (sunrise_sunset svc (ts_date ts)) ∧ is_Some (tz_dst svc ts)) →
  ∃ dfs, get_daylight_factors svc timeseries = Some dfs ∧
    length dfs = length timeseries ∧
    ∀ i ts sunrise sunset dst,
      timeseries !! i = Some ts →
      sunrise_sunset svc (ts_date ts) = Some (sunrise, sunset) →
      tz_dst svc ts = Some dst →
      ∃ offset : Q,
        (dst = 0%Z → offset = 1) ∧ (dst ≠ 0%Z → offset = 2) ∧
        dfs !! i
        = Some (inject_Z (hour sunrise) + inject_Z (minute sunrise) / 60
                  + offset,
                inject_Z (hour sunset) + inject_Z (minute sunset) / 60
                  + offset).
Proof.
  intros Hall.
  destruct (get_daylight_factors_returns _ _ Hall) as [dfs Hdfs].
  exists dfs. split; [done|].
  split; [by apply (get_daylight_factors_length svc)|].
  intros i ts sunrise sunset dst Hts Hr Hd.
  destruct (get_daylight_factors_lookup _ _ _ _ _ Hdfs Hts) as (p & Hp & Hp').
  rewrite (daylight_factor_eq _ _ _ _ _ Hr Hd) in Hp'. injection Hp' as <-.
  exists (daylight_offset dst). unfold daylight_offset.
  split; [|split]; [intros ->; done|intros Hne; by rewrite decide_False|done].
Qed.

Lemma daylight_saving_offset_witness :
  ∃ dfs, get_daylight_factors sample_svc_standard sample_timeseries = Some dfs ∧
    ∃ offset : Q, offset = 1 ∧
      dfs !! 0%nat = Some (inject_Z 5 + inject_Z 30 / 60 + offset,
                           inject_Z 19 + inject_Z 0 / 60 + offset).
Proof.
  destruct (daylight_saving_offset sample_svc_standard sample_timeseries)
    as (dfs & Hdfs & _ & Hpair).
  { intros ts _. split; eexists; reflexivity. }
  exists dfs. split; [exact Hdfs|].
  destruct (Hpair 0%nat _ _ _ _ eq_refl eq_refl eq_refl)
    as (offset & Hstd & _ & Hlookup).
  exists offset. split; [by apply Hstd|exact Hlookup].
Defined.

End DaylightClaims.

(** ** Unit normalization *)

Section UnitFacts.
Local Open Scope R_scope.
Local Open Scope string_scope.
Implicit Types (ds : gmap string field).

Lemma deaccumulate_lookup_in ds ds' v :
  deaccumulate ds = Some ds' → v ∈ accumulated_vars →
  ds' !! v = deaccumulate_data <$> ds !! v.
Proof. intros H Hin. by rewrite (deaccumulate_lookup _ _ v H), decide_True. Qed.

Lemma deaccumulate_lookup_notin ds ds' v :
  deaccumulate ds = Some ds' → v ∉ accumulated_vars →
  ds' !! v = ds !! v.
Proof. intros H Hin. by rewrite (deaccumulate_lookup _ _ v H), decide_False. Qed.

Ltac in_vars := by apply (bool_decide_unpack _).

(** What the unit conversion cell leaves in the dataset. *)
Lemma unit_conversion_inv ds ds1 :
  unit_conversion ds = Some ds1 →
  ∃ pres temp grad nswrf nlwrf,
    ds !! "pres" = Some pres ∧ ds !! "temp" = Some temp ∧
    ds !! "grad" = Some grad ∧ ds !! "nswrf" = Some nswrf ∧
    ds !! "nlwrf" = Some nlwrf ∧
    ds1 !! "pres" = Some (mulc pres 1E-3) ∧
    ds1 !! "temp" = Some (subc temp 273.15) ∧
    ds1 !! "grad" = Some (mulc (deaccumulate_data grad) 1E-6) ∧
    ds1 !! "rn"
    = Some (mulc (aadd (deaccumulate_data nswrf) (deaccumulate_data nlwrf))
                 1E-6).
Proof.
  unfold unit_conversion. intros Hrun.
  destruct (ds !! "pres") as [pres|] eqn:Hpres; simpl in Hrun; [|done].
  rewrite lookup_insert_ne in Hrun by done.
  destruct (ds !! "temp") as [temp|] eqn:Htemp; simpl in Hrun; [|done].
  destruct (deaccumulate _) as [dsc|] eqn:Hde; simpl in Hrun; [|done].
  rewrite (deaccumulate_lookup_in _ _ "nswrf" Hde) in Hrun by in_vars.
  rewrite !lookup_insert_ne in Hrun by done.
  destruct (ds !! "nswrf") as [nswrf|] eqn:Hnswrf; simpl in Hrun; [|done].
  rewrite (deaccumulate_lookup_in _ _ "nlwrf" Hde) in Hrun by in_vars.
  rewrite !lookup_insert_ne in Hrun by done.
  destruct (ds !! "nlwrf") as [nlwrf|] eqn:Hnlwrf; simpl in Hrun; [|done].
  rewrite lookup_insert_ne in Hrun by done.
  rewrite (deaccumulate_lookup_in _ _ "grad" Hde) in Hrun by in_vars.
  rewrite !lookup_insert_ne in Hrun by done.
  destruct (ds !! "grad") as [grad|] eqn:Hgrad; simpl in Hrun; [|done].
  rewrite lookup_insert_ne, lookup_insert_eq in Hrun by done.
  simpl in Hrun. injection Hrun as <-.
  exists pres, temp, grad, nswrf, nlwrf. repeat split; try done.
  - rewrite !lookup_insert_ne by done.
    rewrite (deaccumulate_lookup_notin _ _ "pres" Hde) by in_vars.
    by rewrite lookup_insert_ne, lookup_insert_eq by done.
  - rewrite !lookup_insert_ne by done.
    rewrite (deaccumulate_lookup_notin _ _ "temp" Hde) by in_vars.
    by rewrite lookup_insert_eq.
  - by rewrite lookup_insert_ne, lookup_insert_eq by done.
  - by rewrite lookup_insert_eq.
Qed.

(** The two calls of cell 5 add their results and change nothing else. *)
Lemma pet_cell_lookup svc timeseries ds1 ds2 v :
  pet_cell svc timeseries ds1 = Some ds2 →
  v ≠ "makkink" → v ≠ "penman_monteith" →
  ds2 !! v = ds1 !! v.
Proof.
  unfold pet_cell. intros Hrun Hmk Hpm.
  destruct (ds1 !! "temp") as [temp|] eqn:Htemp; simpl in Hrun; [|done].
  destruct (ds1 !! "grad") as [grad|] eqn:Hgrad; simpl in Hrun; [|done].
  destruct (ds1 !! "pres") as [pres|] eqn:Hpres; simpl in Hrun; [|done].
  rewrite !lookup_insert_ne in Hrun by done.
  rewrite Htemp, Hpres in Hrun. simpl in Hrun.
  destruct (ds1 !! "rh") as [rh|] eqn:Hrh; simpl in Hrun; [|done].
  destruct (ds1 !! "ws") as [ws|] eqn:Hws; simpl in Hrun; [|done].
  destruct (ds1 !! "rn") as [rn|] eqn:Hrn; simpl in Hrun; [|done].
  destruct (calculate_penman_monteith _ _ _ _ _ _ _ _) as [[h' pm]|] eqn:Hcall;
    simpl in Hrun; [|done].
  destruct (calculate_penman_monteith_spec _ _ _ _ _ _ _ _ _ _ Hcall)
    as (_ & _ & _ & _ & _ & vG & _ & -> & _).
  simpl in Hrun. injection Hrun as <-.
  rewrite lookup_insert_ne by done.
  destruct (decide (v = "pres")) as [->|];
    [by rewrite lookup_insert_eq|rewrite lookup_insert_ne by done].
  destruct (decide (v = "rn")) as [->|];
    [by rewrite lookup_insert_eq|rewrite lookup_insert_ne by done].
  destruct (decide (v = "ws")) as [->|];
    [by rewrite lookup_insert_eq|rewrite lookup_insert_ne by done].
  destruct (decide (v = "rh")) as [->|];
    [by rewrite lookup_insert_eq|rewrite lookup_insert_ne by done].
  destruct (decide (v = "temp")) as [->|];
    [by rewrite lookup_insert_eq|rewrite lookup_insert_ne by done].
  by rewrite lookup_insert_ne.
Qed.

(** What the export cell leaves in the dataset. *)
Lemma export_units_inv ds2 ds3 :
  export_units ds2 = Some ds3 →
  ∃ grad rn,
    ds2 !! "grad" = Some grad ∧ ds2 !! "rn" = Some rn ∧
    ds3 !! "grad" = Some (mulc grad 1000) ∧
    ds3 !! "rn" = Some (mulc rn 1000) ∧
    ds3 !! "pres" = ds2 !! "pres" ∧
    ds3 !! "temp" = ds2 !! "temp".
Proof.
  unfold export_units. intros Hrun.
  destruct (ds2 !! "grad") as [grad|] eqn:Hgrad; simpl in Hrun; [|done].
  rewrite lookup_insert_ne in Hrun by done.
  destruct (ds2 !! "rn") as [rn|] eqn:Hrn; simpl in Hrun; [|done].
  rewrite !lookup_insert_ne in Hrun by done.
  destruct (ds2 !! "nswrf") as [nswrf|] eqn:Hnswrf; simpl in Hrun; [|done].
  rewrite !lookup_insert_ne in Hrun by done.
  destruct (ds2 !! "nlwrf") as [nlwrf|] eqn:Hnlwrf; simpl in Hrun; [|done].
  rewrite !lookup_insert_ne in Hrun by done.
  destruct (ds2 !! "precip") as [precip|] eqn:Hprecip; simpl in Hrun; [|done].
  injection Hrun as <-. exists grad, rn. repeat split; try done.
  - rewrite !lookup_insert_ne by done. by rewrite lookup_insert_eq.
  - rewrite !lookup_insert_ne by done. by rewrite lookup_insert_eq.
  - by rewrite !lookup_insert_ne by done.
  - by rewrite !lookup_insert_ne by done.
Qed.

Lemma mulc_mulc (a : field) (k1 k2 k : R) :
  k1 * k2 = k → mulc (mulc a k1) k2 = mulc a k.
Proof.
  intros Hk. unfold mulc. rewrite amap_amap. apply amap_ext.
  intros u. simpl. rewrite <- Hk. ring.
Qed.

Lemma pressure_example : 101325 * 1E-3 = 101.325.
Proof. lra. Qed.

End UnitFacts.

Section UnitClaims.
Local Open Scope R_scope.
Local Open Scope string_scope.

(** C7. Through the pipeline (unit conversion cell, the two PET calls, export
    cell) the pressure field is the provider field times 1e-3 (a sample
    101325 Pa becomes 101.325 kPa), the temperature field the provider field
    minus 273.15, and the de-accumulated energy fluxes 'grad' and 'rn' are
    multiplied by 1e-6 for the PET calls and afterwards by 1e3, in total by
    1e-3. *)
Theorem unit_normalization svc timeseries (ds ds' : gmap string field) :
  pipeline svc timeseries ds = Some ds' →
  ∃ ds1 ds2 pres temp grad nswrf nlwrf,
    unit_conversion ds = Some ds1 ∧
    pet_cell svc timeseries ds1 = Some ds2 ∧
    export_units ds2 = Some ds' ∧
    ds !! "pres" = Some pres ∧ ds !! "temp" = Some temp ∧
    ds !! "grad" = Some grad ∧ ds !! "nswrf" = Some nswrf ∧
    ds !! "nlwrf" = Some nlwrf ∧
    let rn := aadd (deaccumulate_data nswrf) (deaccumulate_data nlwrf) in
    (* pressure *)
    ds1 !! "pres" = Some (amap (λ v, v * 1E-3) pres) ∧
    ds' !! "pres" = Some (amap (λ v, v * 1E-3) pres) ∧
    (∀ i y x, cell pres i y x = Some 101325 →
              cell (amap (λ v, v * 1E-3) pres) i y x = Some 101.325) ∧
    (* temperature *)
    ds1 !! "temp" = Some (amap (λ v, v - 273.15) temp) ∧
    ds' !! "temp" = Some (amap (λ v, v - 273.15) temp) ∧
    (* energy fluxes: joule to megajoule, then megajoule to kilojoule *)
    ds1 !! "grad" = Some (amap (λ v, v * 1E-6) (deaccumulate_data grad)) ∧
    ds1 !! "rn" = Some (amap (λ v, v * 1E-6) rn) ∧
    ds' !! "grad"
    = Some (amap (λ v, v * 1000) (amap (λ v, v * 1E-6) (deaccumulate_data grad))) ∧
    ds' !! "rn" = Some (amap (λ v, v * 1000) (amap (λ v, v * 1E-6) rn)) ∧
    (* net conversion *)
    ds' !! "grad" = Some (amap (λ v, v * 1E-3) (deaccumulate_data grad)) ∧
    ds' !! "rn" = Some (amap (λ v, v * 1E-3) rn).
Proof.
  unfold pipeline. intros Hrun.
  destruct (unit_conversion ds) as [ds1|] eqn:H1; simpl in Hrun; [|done].
  destruct (pet_cell svc timeseries ds1) as [ds2|] eqn:H2; simpl in Hrun;
    [|done].
  destruct (unit_conversion_inv _ _ H1)
    as (pres & temp & grad & nswrf & nlwrf & Hpres & Htemp & Hgrad & Hnswrf &
        Hnlwrf & Hpres1 & Htemp1 & Hgrad1 & Hrn1).
  destruct (export_units_inv _ _ Hrun)
    as (grad2 & rn2 & Hgrad2 & Hrn2 & Hgrad3 & Hrn3 & Hpres3 & Htemp3).
  rewrite (pet_cell_lookup _ _ _ _ "grad" H2) in Hgrad2 by done.
  rewrite (pet_cell_lookup _ _ _ _ "rn" H2) in Hrn2 by done.
  rewrite (pet_cell_lookup _ _ _ _ "pres" H2) in Hpres3 by done.
  rewrite (pet_cell_lookup _ _ _ _ "temp" H2) in Htemp3 by done.
  rewrite Hgrad1 in Hgrad2. injection Hgrad2 as <-.
  rewrite Hrn1 in Hrn2. injection Hrn2 as <-.
  exists ds1, ds2, pres, temp, grad, nswrf, nlwrf.
  do 8 (split; [done|]).
  split; [done|]. split; [by rewrite Hpres3|].
  split.
  { intros i y x Hc. rewrite (cell_amap_Some _ _ _ _ _ _ Hc).
    by rewrite pressure_example. }
  split; [done|]. split; [by rewrite Htemp3|].
  split; [done|]. split; [done|]. split; [done|]. split; [done|].
  split.
  - rewrite Hgrad3. f_equal. apply mulc_mulc. lra.
  - rewrite Hrn3. f_equal. apply mulc_mulc. lra.
Qed.

Lemma unit_normalization_witness :
  ∃ ds' pres', pipeline sample_svc sample_timeseries sample_ds = Some ds' ∧
    ds' !! "pres" = Some pres' ∧ cell pres' 0 0 0 = Some 101.325.
Proof.
  eexists.
  destruct (unit_normalization sample_svc sample_timeseries sample_ds _ eq_refl)
    as (ds1 & ds2 & pres & temp & grad & nswrf & nlwrf & _ & _ & _ & Hpres &
        _ & _ & _ & _ & _ & Hpres' & Hexample & _).
  exists (amap (λ v, v * 1E-3) pres).
  split; [reflexivity|]. split; [exact Hpres'|].
  apply Hexample.
  assert (sample_ds !! "pres" = Some [[[101325]]; [[101300]]]) as Hsample
    by reflexivity.
  rewrite Hsample in Hpres. injection Hpres as <-. reflexivity.
Defined.

End UnitClaims.

(** * Further properties of the notebook *)

(** ** De-accumulation and linear operations *)

Section DeaccumulationAlgebra.
Local Open Scope R_scope.
Local Open Scope string_scope.
Implicit Types (a b data : field) (ds : gmap string field).

Lemma deaccumulate_data_cell_0 a y x :
  cell (deaccumulate_data a) 0 y x = cell a 0 y x.
Proof. unfold cell. by rewrite deaccumulate_data_first. Qed.

(** The cell of a later timestep, whether or not the operands exist. *)
Lemma deaccumulate_data_cell_opt a i y x :
  cell (deaccumulate_data a) (S i) y x
  = u ← cell a (S i) y x; w ← cell a i y x; Some (u - w).
Proof.
  destruct (decide (S i < length a)%nat) as [Hlt|Hge].
  - unfold deaccumulate_data. change (S i) with (1 + i)%nat at 1.
    rewrite cell_assign_from_r by lia.
    rewrite cell_azip, cell_drop, cell_take by lia. done.
  - assert (∀ c : field, (length c ≤ S i)%nat → cell c (S i) y x = None)
      as Hnone.
    { intros c Hc. unfold cell. by rewrite lookup_ge_None_2. }
    rewrite (Hnone a) by lia.
    rewrite Hnone by (rewrite deaccumulate_data_length; lia). done.
Qed.

Lemma fmap_zip_with_distr {A} (f : A → A) (g : A → A → A) :
  (∀ u w, f (g u w) = g (f u) (f w)) →
  ∀ l k : list A, f <$> zip_with g l k = zip_with g (f <$> l) (f <$> k).
Proof.
  intros Hfg. induction l as [|u l IH]; intros [|w k]; simpl; try done.
  by rewrite Hfg, IH.
Qed.

Lemma amap_azip_distr (f : R → R) (g : R → R → R) a b :
  (∀ u w, f (g u w) = g (f u) (f w)) →
  amap f (azip g a b) = azip g (amap f a) (amap f b).
Proof.
  intros Hfg. unfold amap, azip.
  apply fmap_zip_with_distr. intros ga gb.
  apply fmap_zip_with_distr. intros ra rb.
  by apply fmap_zip_with_distr.
Qed.

Lemma amap_app f (a b : field) :
  amap f (a ++ b)%list = (amap f a ++ amap f b)%list.
Proof. apply fmap_app. Qed.

Lemma amap_take f n (a : field) : amap f (take n a) = take n (amap f a).
Proof. apply fmap_take. Qed.

Lemma amap_drop f n (a : field) : amap f (drop n a) = drop n (amap f a).
Proof. apply fmap_drop. Qed.

Lemma amap_length f (a : field) : length (amap f a) = length a.
Proof. apply length_fmap. Qed.

(** X1. De-accumulation commutes with the scaling of a field by a constant:
    differencing the scaled field gives the scaled differences. *)
Theorem deaccumulate_commutes_with_scaling (k : R) data :
  deaccumulate_data (mulc data k) = mulc (deaccumulate_data data) k.
Proof.
  unfold deaccumulate_data, assign_from, mulc.
  rewrite amap_app, amap_azip_distr by (intros u w; lra).
  by rewrite amap_length, !amap_take, amap_drop.
Qed.

(** X2. The net radiation that the unit conversion cell stores is, cell by
    cell, the de-accumulation of the accumulated net radiation
    nswrf + nlwrf, in megajoule. *)
Theorem net_radiation_is_deaccumulated_sum ds ds1 nswrf nlwrf :
  unit_conversion ds = Some ds1 →
  ds !! "nswrf" = Some nswrf → ds !! "nlwrf" = Some nlwrf →
  ∃ rn, ds1 !! "rn" = Some rn ∧
    ∀ i y x,
      cell rn i y x
      = cell (mulc (deaccumulate_data (aadd nswrf nlwrf)) 1E-6) i y x.
Proof.
  intros Hrun Hs Hl.
  destruct (unit_conversion_inv _ _ Hrun)
    as (pres & temp & grad & nswrf' & nlwrf' & _ & _ & _ & Hs' & Hl' &
        _ & _ & _ & Hrn).
  rewrite Hs in Hs'. injection Hs' as <-.
  rewrite Hl in Hl'. injection Hl' as <-.
  eexists. split; [exact Hrn|]. intros i y x.
  unfold mulc. rewrite !cell_amap. f_equal. unfold aadd.
  destruct i as [|i].
  - by rewrite cell_azip, !deaccumulate_data_cell_0, cell_azip.
  - rewrite cell_azip, !deaccumulate_data_cell_opt, !cell_azip.
    destruct (cell nswrf (S i) y x), (cell nswrf i y x),
      (cell nlwrf (S i) y x), (cell nlwrf i y x); simpl; try done.
    f_equal. lra.
Qed.

Lemma net_radiation_is_deaccumulated_sum_witness :
  ∃ ds1 rn, unit_conversion sample_ds = Some ds1 ∧
    ds1 !! "rn" = Some rn ∧
    cell rn 1 0 0
    = cell (mulc (deaccumulate_data
                    (aadd [[[0]]; [[12e6]]] [[[0]]; [[-2e6]]])) 1E-6) 1 0 0.
Proof.
  eexists.
  destruct (net_radiation_is_deaccumulated_sum sample_ds _
              [[[0]]; [[12e6]]] [[[0]]; [[-2e6]]] eq_refl eq_refl eq_refl)
    as (rn & Hrn & Hcell).
  exists rn. split; [reflexivity|]. split; [exact Hrn|]. apply Hcell.
Defined.

(** X3. The de-accumulation cell is not idempotent: run a second time on its
    own output it differences the increments again, so that timestep 1 holds
    v[1] − 2·v[0] and every later timestep the second difference
    v[i+2] − 2·v[i+1] + v[i] of the provider's series. *)
Theorem deaccumulate_twice_second_difference ds ds1 ds2 var data :
  deaccumulate ds = Some ds1 →
  deaccumulate ds1 = Some ds2 →
  var ∈ accumulated_vars →
  ds !! var = Some data →
  ∃ data2, ds2 !! var = Some data2 ∧
    (∀ y x, cell data2 0 y x = cell data 0 y x) ∧
    (∀ y x u1 u0,
       cell data 1 y x = Some u1 → cell data 0 y x = Some u0 →
       cell data2 1 y x = Some (u1 - 2 * u0)) ∧
    (∀ i y x u2 u1 u0,
       cell data (S (S i)) y x = Some u2 → cell data (S i) y x = Some u1 →
       cell data i y x = Some u0 →
       cell data2 (S (S i)) y x = Some (u2 - 2 * u1 + u0)).
Proof.
  intros H1 H2 Hin Hd.
  exists (deaccumulate_data (deaccumulate_data data)). split.
  { rewrite (deaccumulate_lookup_in _ _ var H2 Hin).
    by rewrite (deaccumulate_lookup_in _ _ var H1 Hin), Hd. }
  split; [|split].
  - intros y x. by rewrite !deaccumulate_data_cell_0.
  - intros y x u1 u0 Hu1 Hu0.
    rewrite deaccumulate_data_cell_opt, deaccumulate_data_cell_opt,
      deaccumulate_data_cell_0, Hu1, Hu0.
    simpl. f_equal. lra.
  - intros i y x u2 u1 u0 Hu2 Hu1 Hu0.
    rewrite deaccumulate_data_cell_opt, !deaccumulate_data_cell_opt,
      Hu2, Hu1, Hu0.
    simpl. f_equal. lra.
Qed.

Lemma deaccumulate_twice_second_difference_witness :
  ∃ ds1 ds2 data2,
    deaccumulate sample_cumulative_ds = Some ds1 ∧
    deaccumulate ds1 = Some ds2 ∧
    ds2 !! "grad" = Some data2 ∧
    cell data2 2 0 0 = Some (5 - 2 * 5 + 0).
Proof.
  do 2 eexists.
  destruct (deaccumulate_twice_second_difference sample_cumulative_ds _ _
              "grad" sample_series eq_refl eq_refl)
    as (data2 & Hd2 & _ & _ & Hsecond).
  - apply list_elem_of_here.
  - reflexivity.
  - exists data2. split; [reflexivity|]. split; [reflexivity|].
    split; [exact Hd2|].
    apply (Hsecond 0%nat 0%nat 0%nat 5 5 0); reflexivity.
Defined.

End DeaccumulationAlgebra.

(** ** Shapes *)

Section ShapeFacts.
Implicit Types (a b : field) (T Y X : nat).

Lemma shape_lookup T Y X a :
  shape T Y X a ↔
  length a = T ∧
  ∀ i (g : list (list R)), a !! i = Some g →
    length g = Y ∧ ∀ y (r : list R), g !! y = Some r → length r = X.
Proof.
  unfold shape. rewrite Forall_lookup. split; intros [HT H]; (split; [done|]).
  - intros i g Hg. destruct (H i g Hg) as [HY Hr]. split; [done|].
    by apply Forall_lookup.
  - intros i g Hg. destruct (H i g Hg) as [HY Hr]. split; [done|].
    by apply Forall_lookup.
Qed.

Lemma shape_amap f T Y X a : shape T Y X a → shape T Y X (amap f a).
Proof.
  rewrite !shape_lookup. intros [HT H]. unfold amap.
  split; [by rewrite length_fmap|].
  intros i g' Hg'. rewrite list_lookup_fmap in Hg'.
  destruct (a !! i) as [g|] eqn:Hg; simpl in Hg'; [|done].
  injection Hg' as <-. destruct (H i g Hg) as [HY Hr].
  split; [by rewrite length_fmap|].
  intros y r' Hr'. rewrite list_lookup_fmap in Hr'.
  destruct (g !! y) as [r|] eqn:Hgy; simpl in Hr'; [|done].
  injection Hr' as <-. rewrite length_fmap. by eapply Hr.
Qed.

Lemma shape_azip f T Y X a b :
  shape T Y X a → shape T Y X b → shape T Y X (azip f a b).
Proof.
  rewrite !shape_lookup. intros [HTa Ha] [HTb Hb]. unfold azip.
  split; [rewrite length_zip_with; lia|].
  intros i g' Hg'. rewrite lookup_zip_with in Hg'.
  destruct (a !! i) as [ga|] eqn:Hga; simpl in Hg'; [|done].
  destruct (b !! i) as [gb|] eqn:Hgb; simpl in Hg'; [|done].
  injection Hg' as <-.
  destruct (Ha i ga Hga) as [HYa Hra]. destruct (Hb i gb Hgb) as [HYb Hrb].
  split; [rewrite length_zip_with; lia|].
  intros y r' Hr'. rewrite lookup_zip_with in Hr'.
  destruct (ga !! y) as [ra|] eqn:Hray; simpl in Hr'; [|done].
  destruct (gb !! y) as [rb|] eqn:Hrby; simpl in Hr'; [|done].
  injection Hr' as <-. rewrite length_zip_with.
  rewrite (Hra y ra Hray), (Hrb y rb Hrby). lia.
Qed.

Lemma gscale_shape k (g : list (list R)) Y X :
  length g = Y ∧ (∀ y (r : list R), g !! y = Some r → length r = X) →
  length (gscale k g) = Y ∧
  (∀ y (r : list R), gscale k g !! y = Some r → length r = X).
Proof.
  intros [HY Hr]. unfold gscale. split; [by rewrite length_fmap|].
  intros y r' Hr'. rewrite list_lookup_fmap in Hr'.
  destruct (g !! y) as [r|] eqn:Hgy; simpl in Hr'; [|done].
  injection Hr' as <-. rewrite length_fmap. by eapply Hr.
Qed.

End ShapeFacts.

(** ** The soil heat flux loop outside the visited timesteps *)

Section LoopExtra.
Local Open Scope R_scope.

(** Timesteps after the last daylight factor are not written. *)
Lemma G_flux_loop_after (rn G : nat) timeseries (vrn : field) :
  rn ≠ G → ∀ dfs (h : list field) i (vG : field) h',
  h !! rn = Some vrn → h !! G = Some vG →
  G_flux_loop h rn G timeseries dfs i = Some h' →
  ∃ vG', h' !! G = Some vG' ∧
    ∀ j, (i + length dfs ≤ j)%nat → vG' !! j = vG !! j.
Proof.
  intros Hne. induction dfs as [|[sunrise sunset] dfs IH];
    intros h i vG h' Hrn HG Hrun; simpl in Hrun.
  - injection Hrun as <-. by exists vG.
  - destruct (timeseries !! i) as [ts|] eqn:Hts; simpl in Hrun; [|done].
    rewrite Hrn in Hrun. simpl in Hrun.
    destruct (vrn !! i) as [g|] eqn:Hg; simpl in Hrun; [|done].
    rewrite HG in Hrun. simpl in Hrun.
    destruct (assign_at i vG _) as [vG1|] eqn:Hassign; simpl in Hrun; [|done].
    apply assign_at_Some in Hassign as [Hi ->].
    pose proof (lookup_lt_Some _ _ _ HG) as HGlt.
    edestruct (IH _ _ _ _ ltac:(by rewrite list_lookup_insert_ne)
                 ltac:(by apply list_lookup_insert_eq) Hrun)
      as (vG' & HvG' & Hafter).
    exists vG'. split; [done|].
    intros j Hj. simpl in Hj. rewrite Hafter by lia.
    by rewrite list_lookup_insert_ne by lia.
Qed.

(** The array [G] after a call that returns: scaled grids of [rn] at the
    timesteps of the time axis, the grids of [rn] after them. *)
Lemma calculate_penman_monteith_G svc (h : list field)
    (temp rh ws rn pres : nat) timeseries h' out vrn :
  h !! rn = Some vrn →
  calculate_penman_monteith svc h temp rh ws rn pres timeseries
  = Some (h', out) →
  ∃ vG, h' = (h ++ [vG])%list ∧ length vG = length vrn ∧
    (∀ i, (i < length timeseries)%nat →
       ∃ k g, vrn !! i = Some g ∧ vG !! i = Some (gscale k g)) ∧
    (∀ i, (length timeseries ≤ i)%nat → vG !! i = vrn !! i).
Proof.
  intros Hrn Hrun.
  destruct (calculate_penman_monteith_inv _ _ _ _ _ _ _ _ _ _ Hrun)
    as (vtemp & vrh & vws & vrn' & vpres & vG & dfs & Hrn' & Hdfs & Hh' & Hlen &
        _ & _ & _ & _ & _ & HG).
  rewrite Hrn in Hrn'. injection Hrn' as <-.
  pose proof (get_daylight_factors_length _ _ _ Hdfs) as Hdl.
  exists vG. split; [done|]. split; [done|]. split.
  - intros i Hi.
    destruct (lookup_lt_is_Some_2 dfs i) as [[sunrise sunset] Hp]; [lia|].
    destruct (HG _ _ _ Hp) as (ts & g & _ & Hg & HvG). eauto.
  - intros i Hi.
    unfold calculate_penman_monteith, deepcopy in Hrun.
    rewrite Hrn in Hrun. simpl in Hrun. rewrite Hdfs in Hrun. simpl in Hrun.
    destruct (G_flux_loop _ _ _ _ _ _) as [h1|] eqn:Hloop; simpl in Hrun;
      [|done].
    pose proof (lookup_lt_Some _ _ _ Hrn) as Hlt.
    edestruct (G_flux_loop_after rn (length h) timeseries vrn ltac:(lia)
                 dfs (h ++ [vrn])%list 0%nat vrn h1)
      as (vG1 & HvG1 & Hafter); [| |exact Hloop|].
    { by rewrite lookup_app_l. }
    { by rewrite lookup_app_r, Nat.sub_diag by lia. }
    destruct (h1 !! temp); simpl in Hrun; [|done].
    destruct (h1 !! rh); simpl in Hrun; [|done].
    destruct (h1 !! ws); simpl in Hrun; [|done].
    destruct (h1 !! rn); simpl in Hrun; [|done].
    destruct (h1 !! pres); simpl in Hrun; [|done].
    rewrite HvG1 in Hrun. simpl in Hrun. injection Hrun as Hh1 _.
    rewrite Hh1, Hh' in HvG1.
    rewrite lookup_app_r, Nat.sub_diag in HvG1 by lia.
    injection HvG1 as <-. apply Hafter. simpl. lia.
Qed.

End LoopExtra.

(** ** The PET functions: shape, failure and the clip *)

Section PETExtra.
Local Open Scope R_scope.

Ltac shape_arith :=
  unfold clip_min0, smul, mulc, divc, addc, subc, csub, cadd, square, aexp,
    aadd, asub, amul, adiv;
  repeat first [ assumption | apply shape_amap | apply shape_azip ].

Lemma calculate_makkink_shape T Y X (temp rs pres : field) :
  shape T Y X temp → shape T Y X rs → shape T Y X pres →
  shape T Y X (calculate_makkink temp rs pres).
Proof. intros Ht Hr Hp. unfold calculate_makkink. shape_arith. Qed.

Lemma penman_monteith_equation_shape T Y X (temp rh ws rn pres G : field) :
  shape T Y X temp → shape T Y X rh → shape T Y X ws → shape T Y X rn →
  shape T Y X pres → shape T Y X G →
  shape T Y X (penman_monteith_equation temp rh ws rn pres G).
Proof.
  intros Ht Hrh Hws Hrn Hp HG. unfold penman_monteith_equation. shape_arith.
Qed.

Lemma calculate_penman_monteith_shape (T Y X : nat) svc (h : list field)
    (temp rh ws rn pres : nat) timeseries h' out
    (vtemp vrh vws vrn vpres : field) :
  h !! temp = Some vtemp → h !! rh = Some vrh → h !! ws = Some vws →
  h !! rn = Some vrn → h !! pres = Some vpres →
  shape T Y X vtemp → shape T Y X vrh → shape T Y X vws →
  shape T Y X vrn → shape T Y X vpres →
  calculate_penman_monteith svc h temp rh ws rn pres timeseries
  = Some (h', out) →
  shape T Y X out.
Proof.
  intros Htemp Hrh Hws Hrn Hpres Stemp Srh Sws Srn Spres Hrun.
  destruct (calculate_penman_monteith_G _ _ _ _ _ _ _ _ _ _ _ Hrn Hrun)
    as (vG & Hh' & Hlen & Hvisited & Hafter).
  destruct (calculate_penman_monteith_spec _ _ _ _ _ _ _ _ _ _ Hrun)
    as (vtemp' & vrh' & vws' & vrn' & vpres' & vG' & Hrn' & Hh'' &
        Htemp' & Hrh' & Hws' & Hpres' & -> & _).
  rewrite Hrn in Hrn'. injection Hrn' as <-.
  rewrite Hh' in Hh''. apply app_inv_head in Hh''. injection Hh'' as <-.
  rewrite Hh' in Htemp', Hrh', Hws', Hpres'.
  apply (store_extension_read _ _ _ _ _ Htemp) in Htemp' as ->.
  apply (store_extension_read _ _ _ _ _ Hrh) in Hrh' as ->.
  apply (store_extension_read _ _ _ _ _ Hws) in Hws' as ->.
  apply (store_extension_read _ _ _ _ _ Hpres) in Hpres' as ->.
  apply penman_monteith_equation_shape; try done.
  apply shape_lookup. apply shape_lookup in Srn as [HT Hgrids].
  split; [lia|]. intros i g' Hg'.
  destruct (decide (i < length timeseries)%nat) as [Hi|Hi].
  - destruct (Hvisited i Hi) as (k & g & Hg & HGi).
    rewrite HGi in Hg'. injection Hg' as <-.
    apply gscale_shape. by apply (Hgrids i).
  - rewrite Hafter in Hg' by lia. by apply (Hgrids i).
Qed.

(** X4. Both PET functions return a field of the shape of their inputs:
    when the input arrays all have shape (T, Y, X), so has the result. *)
Theorem pet_outputs_keep_shape (T Y X : nat) :
  (∀ temp rs pres : field,
     shape T Y X temp → shape T Y X rs → shape T Y X pres →
     shape T Y X (calculate_makkink temp rs pres)) ∧
  (∀ svc (h : list field) (temp rh ws rn pres : nat) timeseries h' out
     (vtemp vrh vws vrn vpres : field),
     h !! temp = Some vtemp → h !! rh = Some vrh → h !! ws = Some vws →
     h !! rn = Some vrn → h !! pres = Some vpres →
     shape T Y X vtemp → shape T Y X vrh → shape T Y X vws →
     shape T Y X vrn → shape T Y X vpres →
     calculate_penman_monteith svc h temp rh ws rn pres timeseries
     = Some (h', out) →
     shape T Y X out).
Proof.
  split; [apply calculate_makkink_shape|].
  intros svc h temp rh ws rn pres timeseries h' out vtemp vrh vws vrn vpres.
  apply calculate_penman_monteith_shape.
Qed.

Lemma sample_store_shape (a : field) (l : nat) :
  sample_store !! l = Some a → shape 2 1 1 a.
Proof.
  destruct l as [|[|[|[|[|l]]]]]; simpl; intros [= <-];
    (split; [reflexivity|]); repeat constructor.
Defined.

Lemma pet_outputs_keep_shape_witness :
  shape 2 1 1 (calculate_makkink [[[15]]; [[15]]] [[[8]]; [[0]]]
                 [[[101.3]]; [[101.3]]]) ∧
  ∃ h' out,
    calculate_penman_monteith sample_svc sample_store 0 1 2 3 4
      sample_timeseries = Some (h', out) ∧
    shape 2 1 1 out.
Proof.
  destruct (pet_outputs_keep_shape 2 1 1) as [Hmk Hpm]. split.
  - apply Hmk; (split; [reflexivity|]); repeat constructor.
  - do 2 eexists. split; [reflexivity|].
    eapply (Hpm sample_svc sample_store 0%nat 1%nat 2%nat 3%nat 4%nat
              sample_timeseries _ _ _ _ _ _ _
              eq_refl eq_refl eq_refl eq_refl eq_refl);
      [apply (sample_store_shape _ 0%nat eq_refl)
      |apply (sample_store_shape _ 1%nat eq_refl)
      |apply (sample_store_shape _ 2%nat eq_refl)
      |apply (sample_store_shape _ 3%nat eq_refl)
      |apply (sample_store_shape _ 4%nat eq_refl)
      |reflexivity].
Defined.

Lemma daylight_factor_is_Some svc ts :
  is_Some (daylight_factor svc ts) →
  is_Some (sunrise_sunset svc (ts_date ts)) ∧ is_Some (tz_dst svc ts).
Proof.
  unfold daylight_factor. intros [p Hp].
  destruct (sunrise_sunset svc (ts_date ts)); simpl in Hp; [|done].
  destruct (tz_dst svc ts); simpl in Hp; [|done]. eauto.
Qed.

(** A call that returns had its lookups succeed and found a grid of [rn]
    for every timestamp. *)
Lemma calculate_penman_monteith_returned svc (h : list field)
    (temp rh ws rn pres : nat) timeseries (vrn : field) :
  h !! rn = Some vrn →
  is_Some (calculate_penman_monteith svc h temp rh ws rn pres timeseries) →
  (∀ ts, ts ∈ timeseries →
     is_Some (sunrise_sunset svc (ts_date ts)) ∧ is_Some (tz_dst svc ts)) ∧
  (length timeseries ≤ length vrn)%nat.
Proof.
  intros Hrn [[h' out] Hrun].
  destruct (calculate_penman_monteith_inv _ _ _ _ _ _ _ _ _ _ Hrun)
    as (_ & _ & _ & vrn' & _ & vG & dfs & Hrn' & Hdfs & _ & _ &
        _ & _ & _ & _ & _ & HG).
  rewrite Hrn in Hrn'. injection Hrn' as <-.
  pose proof (get_daylight_factors_length _ _ _ Hdfs) as Hdl. split.
  - intros ts Hin. apply daylight_factor_is_Some.
    assert (is_Some (get_daylight_factors svc timeseries)) as Hsome by eauto.
    apply mapM_is_Some_1 in Hsome.
    by apply (proj1 (Forall_forall _ _) Hsome ts Hin).
  - destruct (decide (length timeseries ≤ length vrn)%nat) as [|Hgt];
      [done|].
    destruct (lookup_lt_is_Some_2 dfs (length vrn)) as [[sr ss] Hp]; [lia|].
    destruct (HG _ _ _ Hp) as (ts & g & _ & Hg & _).
    apply lookup_lt_Some in Hg. lia.
Qed.

(** X5. For arrays that are in the store, [calculate_penman_monteith]
    returns exactly when the sunrise/sunset lookup and the timezone lookup
    succeed for every timestamp and [rn] has a grid for every timestamp; it
    raises when one lookup fails or when the time axis is longer than [rn]. *)
Theorem penman_monteith_returns_iff svc (h : list field)
    (temp rh ws rn pres : nat) timeseries (vrn : field) :
  is_Some (h !! temp) → is_Some (h !! rh) → is_Some (h !! ws) →
  h !! rn = Some vrn → is_Some (h !! pres) →
  is_Some (calculate_penman_monteith svc h temp rh ws rn pres timeseries) ↔
  (∀ ts, ts ∈ timeseries →
     is_Some (sunrise_sunset svc (ts_date ts)) ∧ is_Some (tz_dst svc ts)) ∧
  (length timeseries ≤ length vrn)%nat.
Proof.
  intros Htemp Hrh Hws Hrn Hpres. split.
  - by apply calculate_penman_monteith_returned.
  - intros [Hsvc Hlen]. by eapply calculate_penman_monteith_returns.
Qed.

Lemma penman_monteith_returns_iff_witness :
  is_Some (calculate_penman_monteith sample_svc sample_store 0 1 2 3 4
             sample_timeseries) ↔
  (∀ ts, ts ∈ sample_timeseries →
     is_Some (sunrise_sunset sample_svc (ts_date ts)) ∧
     is_Some (tz_dst sample_svc ts)) ∧
  (length sample_timeseries ≤ 2)%nat.
Proof.
  apply (penman_monteith_returns_iff sample_svc sample_store 0 1 2 3 4
           sample_timeseries [[[10]]; [[10]]]);
    first [reflexivity | eexists; reflexivity].
Defined.

(** X6. Timesteps of the arrays that lie beyond the time axis are not
    visited by the loop: there [G] stays the copy of [rn], so the result is
    the equation with G = rn (no radiation term). *)
Theorem penman_monteith_beyond_time_axis svc (h : list field)
    (temp rh ws rn pres : nat) timeseries h' out
    (vtemp vrh vws vrn vpres : field) i y x (T RH w r P : R) :
  h !! temp = Some vtemp → h !! rh = Some vrh → h !! ws = Some vws →
  h !! rn = Some vrn → h !! pres = Some vpres →
  calculate_penman_monteith svc h temp rh ws rn pres timeseries
  = Some (h', out) →
  (length timeseries ≤ i)%nat →
  cell vtemp i y x = Some T → cell vrh i y x = Some RH →
  cell vws i y x = Some w → cell vrn i y x = Some r →
  cell vpres i y x = Some P →
  ∃ vG, h' !! length h = Some vG ∧ cell vG i y x = Some r ∧
    cell out i y x = Some (Spec.penman_monteith T RH w r P r).
Proof.
  intros Htemp Hrh Hws Hrn Hpres Hrun Hi HT HRH Hw Hr HP.
  destruct (calculate_penman_monteith_G _ _ _ _ _ _ _ _ _ _ _ Hrn Hrun)
    as (vG & Hh' & Hlen & _ & Hafter).
  destruct (calculate_penman_monteith_spec _ _ _ _ _ _ _ _ _ _ Hrun)
    as (vtemp' & vrh' & vws' & vrn' & vpres' & vG' & Hrn' & Hh'' &
        Htemp' & Hrh' & Hws' & Hpres' & -> & _).
  rewrite Hrn in Hrn'. injection Hrn' as <-.
  rewrite Hh' in Hh''. apply app_inv_head in Hh''. injection Hh'' as <-.
  rewrite Hh' in Htemp', Hrh', Hws', Hpres'.
  apply (store_extension_read _ _ _ _ _ Htemp) in Htemp' as ->.
  apply (store_extension_read _ _ _ _ _ Hrh) in Hrh' as ->.
  apply (store_extension_read _ _ _ _ _ Hws) in Hws' as ->.
  apply (store_extension_read _ _ _ _ _ Hpres) in Hpres' as ->.
  assert (cell vG i y x = Some r) as HG.
  { unfold cell in *. by rewrite Hafter. }
  exists vG. split.
  { by rewrite Hh', lookup_app_r, Nat.sub_diag by lia. }
  split; [done|]. by apply penman_monteith_equation_cell.
Qed.

Lemma penman_monteith_beyond_time_axis_witness :
  ∃ h' out vG,
    calculate_penman_monteith sample_svc sample_store 0 1 2 3 4
      (take 1 sample_timeseries) = Some (h', out) ∧
    h' !! 5%nat = Some vG ∧ cell vG 1 0 0 = Some 10.
Proof.
  do 2 eexists.
  destruct (penman_monteith_beyond_time_axis sample_svc sample_store
              0 1 2 3 4 (take 1 sample_timeseries) _ _ _ _ _ _ _
              1 0 0 15 70 3 10 101.3
              eq_refl eq_refl eq_refl eq_refl eq_refl eq_refl)
    as (vG & HvG & Hcell & _); try reflexivity.
  exists vG. split; [reflexivity|]. by split.
Defined.

End PETExtra.

(** ** When the clip of the PET functions is active *)

Section ClipFacts.
Local Open Scope R_scope.

Lemma Rmax0_nonpos v : v <= 0 → Rmax 0 v = 0.
Proof. intros H. by apply Rmax_left. Qed.

Lemma Rmax0_nonneg v : 0 <= v → Rmax 0 v = v.
Proof. intros H. by apply Rmax_right. Qed.

Lemma saturation_pressure_pos T : 0 < Spec.saturation_pressure T.
Proof.
  unfold Spec.saturation_pressure.
  pose proof (exp_pos (17.27 * T / (T + 237.3))). lra.
Qed.

Lemma slope_pos T : T + 237.3 ≠ 0 → 0 < Spec.slope T.
Proof.
  intros HT. unfold Spec.slope. pose proof (saturation_pressure_pos T).
  apply Rdiv_lt_0_compat; [lra|].
  assert (0 < (T + 237.3) * (T + 237.3)) by (apply Rsqr_pos_lt; done).
  simpl. lra.
Qed.

Lemma psychrometric_nonneg T P :
  0 < Spec.latent_heat T → 0 <= P → 0 <= Spec.psychrometric T P.
Proof.
  intros Hlam HP. unfold Spec.psychrometric.
  assert (0 < / (0.622 * Spec.latent_heat T))
    by (apply Rinv_0_lt_compat; lra).
  unfold Rdiv. nra.
Qed.

Lemma wind_2m_nonneg w : 0 <= w → 0 <= Spec.wind_2m w.
Proof.
  intros Hw. unfold Spec.wind_2m. simpl.
  pose proof ln_wind_pos as HL.
  assert (0 < / ln (67.8 * 10 - 5.42)) by by apply Rinv_0_lt_compat.
  unfold Rdiv. nra.
Qed.

Lemma div_sign_nonpos n d : 0 < d → n <= 0 → n / d <= 0.
Proof.
  intros Hd Hn. assert (0 < / d) by by apply Rinv_0_lt_compat.
  unfold Rdiv. nra.
Qed.

Lemma div_sign_nonneg n d : 0 < d → 0 <= n → 0 <= n / d.
Proof.
  intros Hd Hn. assert (0 < / d) by by apply Rinv_0_lt_compat.
  unfold Rdiv. nra.
Qed.

(** X7. For a temperature with T + 237.3 ≠ 0 and a positive latent heat
    (2.501 − 0.002361·T > 0) and a pressure P ≥ 0, the sign of the Makkink
    value is the sign of the radiation: the result is 0 when rs ≤ 0, and for
    rs > 0 it is the positive value (0.65·s·rs) / (λ·(s+γ)), which the clip
    leaves as it is. *)
Theorem makkink_clip_follows_radiation (temp rs pres : field) i y x
    (T r P : R) :
  cell temp i y x = Some T →
  cell rs i y x = Some r →
  cell pres i y x = Some P →
  T + 237.3 ≠ 0 → 0 < Spec.latent_heat T → 0 <= P →
  let s := Spec.slope T in
  let γ := Spec.psychrometric T P in
  let pet := (0.65 * s * r) / (Spec.latent_heat T * (s + γ)) in
  (r <= 0 → cell (calculate_makkink temp rs pres) i y x = Some 0) ∧
  (0 < r →
   cell (calculate_makkink temp rs pres) i y x = Some pet ∧ 0 < pet).
Proof.
  intros HT Hr HP HT0 Hlam HP0 s γ pet.
  rewrite (calculate_makkink_cell _ _ _ _ _ _ _ _ _ HT Hr HP).
  unfold Spec.makkink. fold s γ pet.
  pose proof (slope_pos T HT0) as Hs. fold s in Hs.
  pose proof (psychrometric_nonneg T P Hlam HP0) as Hγ. fold γ in Hγ.
  assert (0 < Spec.latent_heat T * (s + γ)) as HD by nra.
  split.
  - intros Hle. f_equal. apply Rmax0_nonpos.
    apply div_sign_nonpos; [done|nra].
  - intros Hlt. assert (0 < pet) as Hpos.
    { apply Rdiv_lt_0_compat; [nra|done]. }
    split; [|done]. f_equal. apply Rmax0_nonneg. lra.
Qed.

Lemma makkink_clip_follows_radiation_witness :
  cell (calculate_makkink [[[15]]] [[[-8]]] [[[101.3]]]) 0 0 0 = Some 0.
Proof.
  refine (proj1 (makkink_clip_follows_radiation
                   [[[15]]] [[[-8]]] [[[101.3]]] 0 0 0 15 (-8) 101.3
                   eq_refl eq_refl eq_refl _ _ _) _);
    unfold Spec.latent_heat; lra.
Defined.

Lemma G_factor_cases sunrise sunset hour :
  G_factor sunrise sunset hour = 0.1 ∨ G_factor sunrise sunset hour = 0.5.
Proof. unfold G_factor. destruct (in_daylight _ _ _); auto. Qed.

(** X8. At a timestep of the time axis, for a cell with −237.3 < T, a
    positive latent heat, P ≥ 0, wind speed ≥ 0, relative humidity ≤ 100 and
    net radiation ≥ 0, the Penman-Monteith value before the clip is already
    ≥ 0: the result is the unclipped equation with G = k·rn, k being 0.1 or
    0.5.  A negative value before the clip needs a negative net radiation, a
    negative wind speed or a relative humidity above 100. *)
Theorem penman_monteith_clip_inactive svc (h : list field)
    (temp rh ws rn pres : nat) timeseries h' out
    (vtemp vrh vws vrn vpres : field) i y x ts sunrise sunset
    (T RH w r P : R) :
  h !! temp = Some vtemp → h !! rh = Some vrh → h !! ws = Some vws →
  h !! rn = Some vrn → h !! pres = Some vpres →
  calculate_penman_monteith svc h temp rh ws rn pres timeseries
  = Some (h', out) →
  timeseries !! i = Some ts →
  daylight_factor svc ts = Some (sunrise, sunset) →
  cell vtemp i y x = Some T → cell vrh i y x = Some RH →
  cell vws i y x = Some w → cell vrn i y x = Some r →
  cell vpres i y x = Some P →
  -237.3 < T → 0 < Spec.latent_heat T → 0 <= P → 0 <= w → RH <= 100 →
  0 <= r →
  ∃ k pet, (k = 0.1 ∨ k = 0.5) ∧
    pet = (0.408 * Spec.slope T * (r - k * r)
           + Spec.psychrometric T P * (37 / (T + 273)) * Spec.wind_2m w
             * (Spec.saturation_pressure T - Spec.actual_pressure T RH))
          / (Spec.slope T + Spec.psychrometric T P
                            * (1 + 0.34 * Spec.wind_2m w)) ∧
    cell out i y x = Some pet ∧ 0 <= pet.
Proof.
  intros Htemp Hrh Hws Hrn Hpres Hrun Hts Hdf HT HRH Hw Hr HP
    HT0 Hlam HP0 Hw0 HRH0 Hr0.
  destruct (calculate_penman_monteith_spec _ _ _ _ _ _ _ _ _ _ Hrun)
    as (vtemp' & vrh' & vws' & vrn' & vpres' & vG & Hrn' & -> &
        Htemp' & Hrh' & Hws' & Hpres' & -> & HG).
  rewrite Hrn in Hrn'. injection Hrn' as <-.
  apply (store_extension_read _ _ _ _ _ Htemp) in Htemp' as ->.
  apply (store_extension_read _ _ _ _ _ Hrh) in Hrh' as ->.
  apply (store_extension_read _ _ _ _ _ Hws) in Hws' as ->.
  apply (store_extension_read _ _ _ _ _ Hpres) in Hpres' as ->.
  pose proof (HG _ _ _ _ _ _ _ Hts Hdf Hr) as HGcell.
  set (k := G_factor sunrise sunset (hour_of_day ts)) in *.
  exists k. eexists. split; [apply G_factor_cases|]. split; [reflexivity|].
  rewrite (penman_monteith_equation_cell _ _ _ _ _ _ _ _ _ _ _ _ _ _ _
             HT HRH Hw Hr HP HGcell).
  unfold Spec.penman_monteith.
  pose proof (slope_pos T ltac:(lra)) as Hs.
  pose proof (psychrometric_nonneg T P Hlam HP0) as Hγ.
  pose proof (wind_2m_nonneg w Hw0) as Hu.
  pose proof (saturation_pressure_pos T) as Hes.
  assert (0 <= Spec.saturation_pressure T - Spec.actual_pressure T RH) as Hd.
  { unfold Spec.actual_pressure. nra. }
  assert (0 < 37 / (T + 273)) as Hp by (apply Rdiv_lt_0_compat; lra).
  assert (0 <= r - k * r) as Hrad.
  { destruct (G_factor_cases sunrise sunset (hour_of_day ts)) as [Hk|Hk];
      fold k in Hk; rewrite Hk; lra. }
  set (s := Spec.slope T) in *. set (γ := Spec.psychrometric T P) in *.
  set (u2 := Spec.wind_2m w) in *.
  set (d := Spec.saturation_pressure T - Spec.actual_pressure T RH) in *.
  set (p := 37 / (T + 273)) in *. set (rad := r - k * r) in *.
  assert (0 <= γ * p * u2 * d) as Haero.
  { assert (0 <= γ * p) by nra. assert (0 <= γ * p * u2) by nra. nra. }
  assert (0 < s + γ * (1 + 0.34 * u2)) as HD by nra.
  assert (0 <= (0.408 * s * rad + γ * p * u2 * d)
               / (s + γ * (1 + 0.34 * u2))) as Hpet.
  { apply div_sign_nonneg; [done|nra]. }
  split; [|done]. f_equal. by apply Rmax0_nonneg.
Qed.

Lemma penman_monteith_clip_inactive_witness :
  ∃ h' out pet,
    calculate_penman_monteith sample_svc sample_store 0 1 2 3 4
      sample_timeseries = Some (h', out) ∧
    cell out 1 0 0 = Some pet ∧ 0 <= pet.
Proof.
  do 2 eexists.
  destruct (penman_monteith_clip_inactive sample_svc sample_store 0 1 2 3 4
              sample_timeseries _ _ _ _ _ _ _ 1 0 0 _ _ _ 15 70 3 10 101.3
              eq_refl eq_refl eq_refl eq_refl eq_refl eq_refl eq_refl eq_refl
              eq_refl eq_refl eq_refl eq_refl eq_refl)
    as (k & pet & _ & _ & Hcell & Hpet);
    try (unfold Spec.latent_heat; lra).
  exists pet. split; [reflexivity|]. by split.
Defined.

End ClipFacts.

(** ** The three cells, stage by stage *)

Section StageFacts.
Local Open Scope R_scope.
Local Open Scope string_scope.
Implicit Types (ds : gmap string field).

Ltac in_vars := by apply (bool_decide_unpack _).

(** A loop that ran to its end found every listed variable. *)
Lemma for_each_deaccumulate_present (vars : list string) : ∀ ds ds',
  for_each deaccumulate_var vars ds = Some ds' →
  ∀ v, v ∈ vars → is_Some (ds !! v).
Proof.
  induction vars as [|var vars IH]; intros ds ds' Hrun v Hin; simpl in Hrun.
  - by apply elem_of_nil in Hin.
  - destruct (deaccumulate_var ds var) as [dsv|] eqn:Hstep; simpl in Hrun;
      [|done].
    unfold deaccumulate_var in Hstep.
    destruct (ds !! var) as [data|] eqn:Hd; simpl in Hstep; [|done].
    injection Hstep as <-.
    apply elem_of_cons in Hin as [->|Hin]; [by rewrite Hd|].
    destruct (IH _ _ Hrun v Hin) as [w Hw].
    destruct (decide (v = var)) as [->|Hne]; [by rewrite Hd|].
    rewrite lookup_insert_ne in Hw by done. eauto.
Qed.

Lemma deaccumulate_present ds ds' v :
  deaccumulate ds = Some ds' → v ∈ accumulated_vars → is_Some (ds !! v).
Proof. intros H. by apply (for_each_deaccumulate_present _ _ _ H). Qed.

Lemma deaccumulate_returns ds :
  (∀ v, v ∈ accumulated_vars → is_Some (ds !! v)) →
  is_Some (deaccumulate ds).
Proof. apply for_each_deaccumulate_returns. Qed.

(** The unit conversion cell, step by step. *)
Lemma unit_conversion_steps ds ds1 :
  unit_conversion ds = Some ds1 ↔
  ∃ pres temp dsc nswrf nlwrf grad,
    ds !! "pres" = Some pres ∧ ds !! "temp" = Some temp ∧
    deaccumulate (<["temp" := subc temp 273.15]>
                    (<["pres" := mulc pres 1E-3]> ds)) = Some dsc ∧
    dsc !! "nswrf" = Some nswrf ∧ dsc !! "nlwrf" = Some nlwrf ∧
    dsc !! "grad" = Some grad ∧
    ds1 = <["rn" := mulc (aadd nswrf nlwrf) 1E-6]>
            (<["grad" := mulc grad 1E-6]>
               (<["rn" := aadd nswrf nlwrf]> dsc)).
Proof.
  unfold unit_conversion. split.
  - intros Hrun.
    destruct (ds !! "pres") as [pres|] eqn:Hpres; simpl in Hrun; [|done].
    rewrite lookup_insert_ne in Hrun by done.
    destruct (ds !! "temp") as [temp|] eqn:Htemp; simpl in Hrun; [|done].
    destruct (deaccumulate _) as [dsc|] eqn:Hde; simpl in Hrun; [|done].
    destruct (dsc !! "nswrf") as [nswrf|] eqn:Hs; simpl in Hrun; [|done].
    destruct (dsc !! "nlwrf") as [nlwrf|] eqn:Hl; simpl in Hrun; [|done].
    rewrite lookup_insert_ne in Hrun by done.
    destruct (dsc !! "grad") as [grad|] eqn:Hg; simpl in Hrun; [|done].
    rewrite lookup_insert_ne, lookup_insert_eq in Hrun by done.
    simpl in Hrun. injection Hrun as <-.
    by exists pres, temp, dsc, nswrf, nlwrf, grad.
  - intros (pres & temp & dsc & nswrf & nlwrf & grad & Hpres & Htemp & Hde &
            Hs & Hl & Hg & ->).
    rewrite Hpres. simpl. rewrite lookup_insert_ne by done.
    rewrite Htemp. simpl. rewrite Hde. simpl. rewrite Hs, Hl. simpl.
    rewrite lookup_insert_ne by done. rewrite Hg. simpl.
    by rewrite lookup_insert_ne, lookup_insert_eq by done.
Qed.

(** The variables that the unit conversion cell does not assign. *)
Lemma unit_conversion_lookup_other ds ds1 v :
  unit_conversion ds = Some ds1 →
  v ≠ "pres" → v ≠ "temp" → v ≠ "grad" → v ≠ "rn" →
  ds1 !! v = if decide (v ∈ accumulated_vars)
             then deaccumulate_data <$> ds !! v else ds !! v.
Proof.
  intros (pres & temp & dsc & nswrf & nlwrf & grad & Hpres & Htemp & Hde &
          Hs & Hl & Hg & ->)%unit_conversion_steps Hv1 Hv2 Hv3 Hv4.
  rewrite !lookup_insert_ne by done.
  rewrite (deaccumulate_lookup _ _ v Hde).
  by rewrite !lookup_insert_ne by done.
Qed.

Lemma unit_conversion_present ds ds1 v :
  unit_conversion ds = Some ds1 →
  v ∈ ["pres"; "temp"; "grad"; "nswrf"; "nlwrf"; "precip"] →
  is_Some (ds !! v).
Proof.
  intros (pres & temp & dsc & nswrf & nlwrf & grad & Hpres & Htemp & Hde &
          Hs & Hl & Hg & ->)%unit_conversion_steps Hin.
  apply elem_of_cons in Hin as [->|Hin]; [eauto|].
  apply elem_of_cons in Hin as [->|Hin]; [eauto|].
  assert (v ∈ accumulated_vars) as Hacc.
  { unfold accumulated_vars.
    repeat (apply elem_of_cons in Hin as [->|Hin]; [in_vars|]).
    by apply elem_of_nil in Hin. }
  destruct (deaccumulate_present _ _ v Hde Hacc) as [w Hw].
  rewrite !lookup_insert_ne in Hw; [eauto|..];
    intros <-; revert Hacc; in_vars.
Qed.

Lemma unit_conversion_returns ds :
  (∀ v, v ∈ ["pres"; "temp"; "grad"; "nswrf"; "nlwrf"; "precip"] →
        is_Some (ds !! v)) →
  is_Some (unit_conversion ds).
Proof.
  intros Hall.
  destruct (Hall "pres") as [pres Hpres]; [in_vars|].
  destruct (Hall "temp") as [temp Htemp]; [in_vars|].
  destruct (deaccumulate_returns
              (<["temp" := subc temp 273.15]>
                 (<["pres" := mulc pres 1E-3]> ds))) as [dsc Hde].
  { intros v Hv. rewrite !lookup_insert_ne.
    - apply Hall. unfold accumulated_vars in Hv.
      repeat (apply elem_of_cons in Hv as [->|Hv]; [in_vars|]).
      by apply elem_of_nil in Hv.
    - intros <-. revert Hv. in_vars.
    - intros <-. revert Hv. in_vars. }
  assert (∀ v, v ∈ accumulated_vars → is_Some (dsc !! v)) as Hdsc.
  { intros v Hv. rewrite (deaccumulate_lookup_in _ _ v Hde Hv).
    destruct (deaccumulate_present _ _ v Hde Hv) as [w ->]. by eexists. }
  destruct (Hdsc "nswrf") as [nswrf Hs]; [in_vars|].
  destruct (Hdsc "nlwrf") as [nlwrf Hl]; [in_vars|].
  destruct (Hdsc "grad") as [grad Hg]; [in_vars|].
  eexists. apply unit_conversion_steps.
  by exists pres, temp, dsc, nswrf, nlwrf, grad.
Qed.

(** The two calls of cell 5. *)
Lemma pet_cell_steps svc timeseries ds1 ds2 :
  pet_cell svc timeseries ds1 = Some ds2 ↔
  ∃ temp grad pres rh ws rn h' pm,
    ds1 !! "temp" = Some temp ∧ ds1 !! "grad" = Some grad ∧
    ds1 !! "pres" = Some pres ∧ ds1 !! "rh" = Some rh ∧
    ds1 !! "ws" = Some ws ∧ ds1 !! "rn" = Some rn ∧
    calculate_penman_monteith svc [temp; rh; ws; rn; pres] 0 1 2 3 4
      timeseries = Some (h', pm) ∧
    ds2 = <["penman_monteith" := pm]>
            (<["makkink" := calculate_makkink temp grad pres]> ds1).
Proof.
  unfold pet_cell. split.
  - intros Hrun.
    destruct (ds1 !! "temp") as [temp|] eqn:Htemp; simpl in Hrun; [|done].
    destruct (ds1 !! "grad") as [grad|] eqn:Hgrad; simpl in Hrun; [|done].
    destruct (ds1 !! "pres") as [pres|] eqn:Hpres; simpl in Hrun; [|done].
    rewrite !lookup_insert_ne in Hrun by done.
    rewrite Htemp, Hpres in Hrun. simpl in Hrun.
    destruct (ds1 !! "rh") as [rh|] eqn:Hrh; simpl in Hrun; [|done].
    destruct (ds1 !! "ws") as [ws|] eqn:Hws; simpl in Hrun; [|done].
    destruct (ds1 !! "rn") as [rn|] eqn:Hrn; simpl in Hrun; [|done].
    destruct (calculate_penman_monteith _ _ _ _ _ _ _ _) as [[h' pm]|]
      eqn:Hcall; simpl in Hrun; [|done].
    destruct (calculate_penman_monteith_spec _ _ _ _ _ _ _ _ _ _ Hcall)
      as (_ & _ & _ & _ & _ & vG & _ & Hh' & _).
    rewrite Hh' in Hrun. simpl in Hrun. injection Hrun as <-.
    exists temp, grad, pres, rh, ws, rn, h', pm.
    repeat split; try done.
    rewrite (insert_id _ "temp" temp) by by rewrite lookup_insert_ne.
    rewrite (insert_id _ "rh" rh) by by rewrite lookup_insert_ne.
    rewrite (insert_id _ "ws" ws) by by rewrite lookup_insert_ne.
    rewrite (insert_id _ "rn" rn) by by rewrite lookup_insert_ne.
    rewrite (insert_id _ "pres" pres) by by rewrite lookup_insert_ne.
    done.
  - intros (temp & grad & pres & rh & ws & rn & h' & pm & Htemp & Hgrad &
            Hpres & Hrh & Hws & Hrn & Hcall & ->).
    rewrite Htemp, Hgrad, Hpres. simpl.
    rewrite !lookup_insert_ne by done.
    rewrite Htemp, Hrh, Hws, Hrn, Hpres. simpl. rewrite Hcall. simpl.
    destruct (calculate_penman_monteith_spec _ _ _ _ _ _ _ _ _ _ Hcall)
      as (_ & _ & _ & _ & _ & vG & _ & Hh' & _).
    rewrite Hh'. simpl.
    rewrite (insert_id _ "temp" temp) by by rewrite lookup_insert_ne.
    rewrite (insert_id _ "rh" rh) by by rewrite lookup_insert_ne.
    rewrite (insert_id _ "ws" ws) by by rewrite lookup_insert_ne.
    rewrite (insert_id _ "rn" rn) by by rewrite lookup_insert_ne.
    rewrite (insert_id _ "pres" pres) by by rewrite lookup_insert_ne.
    done.
Qed.

(** The export cell, step by step. *)
Lemma export_units_steps ds2 ds3 :
  export_units ds2 = Some ds3 ↔
  ∃ grad rn nswrf nlwrf precip,
    ds2 !! "grad" = Some grad ∧ ds2 !! "rn" = Some rn ∧
    ds2 !! "nswrf" = Some nswrf ∧ ds2 !! "nlwrf" = Some nlwrf ∧
    ds2 !! "precip" = Some precip ∧
    ds3 = <["precip" := clip_min0 precip]>
            (<["nlwrf" := mulc nlwrf 1.00E-03]>
               (<["nswrf" := mulc nswrf 1.00E-03]>
                  (<["rn" := mulc rn 1000]>
                     (<["grad" := mulc grad 1000]> ds2)))).
Proof.
  unfold export_units. split.
  - intros Hrun.
    destruct (ds2 !! "grad") as [grad|] eqn:Hgrad; simpl in Hrun; [|done].
    rewrite lookup_insert_ne in Hrun by done.
    destruct (ds2 !! "rn") as [rn|] eqn:Hrn; simpl in Hrun; [|done].
    rewrite !lookup_insert_ne in Hrun by done.
    destruct (ds2 !! "nswrf") as [nswrf|] eqn:Hs; simpl in Hrun; [|done].
    rewrite !lookup_insert_ne in Hrun by done.
    destruct (ds2 !! "nlwrf") as [nlwrf|] eqn:Hl; simpl in Hrun; [|done].
    rewrite !lookup_insert_ne in Hrun by done.
    destruct (ds2 !! "precip") as [precip|] eqn:Hp; simpl in Hrun; [|done].
    injection Hrun as <-. by exists grad, rn, nswrf, nlwrf, precip.
  - intros (grad & rn & nswrf & nlwrf & precip & Hgrad & Hrn & Hs & Hl & Hp &
            ->).
    rewrite Hgrad. simpl. rewrite lookup_insert_ne by done.
    rewrite Hrn. simpl. rewrite !lookup_insert_ne by done.
    rewrite Hs. simpl. rewrite !lookup_insert_ne by done.
    rewrite Hl. simpl. rewrite !lookup_insert_ne by done.
    by rewrite Hp.
Qed.

End StageFacts.

(** ** The pipeline as a whole *)

Section PipelineExtra.
Local Open Scope R_scope.
Local Open Scope string_scope.
Implicit Types (ds : gmap string field).

Ltac in_vars := by apply (bool_decide_unpack _).

Lemma pipeline_steps svc timeseries ds ds' :
  pipeline svc timeseries ds = Some ds' ↔
  ∃ ds1 ds2, unit_conversion ds = Some ds1 ∧
    pet_cell svc timeseries ds1 = Some ds2 ∧ export_units ds2 = Some ds'.
Proof.
  unfold pipeline. split.
  - intros Hrun.
    destruct (unit_conversion ds) as [ds1|]; simpl in Hrun; [|done].
    destruct (pet_cell svc timeseries ds1) as [ds2|] eqn:H2; simpl in Hrun;
      [|done].
    by exists ds1, ds2.
  - intros (ds1 & ds2 & -> & H2 & H3). simpl. by rewrite H2.
Qed.

Lemma mulc_length (a : field) k : length (mulc a k) = length a.
Proof. apply length_fmap. Qed.

Lemma aadd_length (a b : field) :
  length (aadd a b) = (length a `min` length b)%nat.
Proof. apply length_zip_with. Qed.

(** X9. The PET fields of the pipeline are computed from the converted
    fields: Makkink from the temperature in °C, the de-accumulated global
    radiation in megajoule and the pressure in kPa; Penman-Monteith from the
    same temperature and pressure, the unconverted humidity and wind speed,
    and the de-accumulated net radiation in megajoule (not from the kilojoule
    values that the export cell stores afterwards). *)
Theorem pipeline_pet_inputs svc timeseries ds ds'
    (pres temp rh ws grad nswrf nlwrf : field) :
  pipeline svc timeseries ds = Some ds' →
  ds !! "pres" = Some pres → ds !! "temp" = Some temp →
  ds !! "rh" = Some rh → ds !! "ws" = Some ws →
  ds !! "grad" = Some grad →
  ds !! "nswrf" = Some nswrf → ds !! "nlwrf" = Some nlwrf →
  let temp_C := subc temp 273.15 in
  let pres_kPa := mulc pres 1E-3 in
  let grad_MJ := mulc (deaccumulate_data grad) 1E-6 in
  let rn_MJ :=
    mulc (aadd (deaccumulate_data nswrf) (deaccumulate_data nlwrf)) 1E-6 in
  ds' !! "makkink" = Some (calculate_makkink temp_C grad_MJ pres_kPa) ∧
  ∃ h' pm,
    calculate_penman_monteith svc [temp_C; rh; ws; rn_MJ; pres_kPa]
      0 1 2 3 4 timeseries = Some (h', pm) ∧
    ds' !! "penman_monteith" = Some pm.
Proof.
  intros (ds1 & ds2 & H1 & H2 & H3)%pipeline_steps
    Hpres Htemp Hrh Hws Hgrad Hs Hl temp_C pres_kPa grad_MJ rn_MJ.
  destruct (unit_conversion_inv _ _ H1)
    as (pres' & temp' & grad' & nswrf' & nlwrf' & Hpres' & Htemp' & Hgrad' &
        Hs' & Hl' & Hpres1 & Htemp1 & Hgrad1 & Hrn1).
  rewrite Hpres in Hpres'. injection Hpres' as <-.
  rewrite Htemp in Htemp'. injection Htemp' as <-.
  rewrite Hgrad in Hgrad'. injection Hgrad' as <-.
  rewrite Hs in Hs'. injection Hs' as <-.
  rewrite Hl in Hl'. injection Hl' as <-.
  pose proof (unit_conversion_lookup_other _ _ "rh" H1
                ltac:(done) ltac:(done) ltac:(done) ltac:(done)) as Hrh1.
  rewrite decide_False, Hrh in Hrh1 by in_vars.
  pose proof (unit_conversion_lookup_other _ _ "ws" H1
                ltac:(done) ltac:(done) ltac:(done) ltac:(done)) as Hws1.
  rewrite decide_False, Hws in Hws1 by in_vars.
  apply pet_cell_steps in H2
    as (temp2 & grad2 & pres2 & rh2 & ws2 & rn2 & h' & pm & Ht2 & Hg2 & Hp2 &
        Hrh2 & Hws2 & Hrn2 & Hcall & ->).
  rewrite Htemp1 in Ht2. injection Ht2 as <-.
  rewrite Hgrad1 in Hg2. injection Hg2 as <-.
  rewrite Hpres1 in Hp2. injection Hp2 as <-.
  rewrite Hrh1 in Hrh2. injection Hrh2 as <-.
  rewrite Hws1 in Hws2. injection Hws2 as <-.
  rewrite Hrn1 in Hrn2. injection Hrn2 as <-.
  apply export_units_steps in H3
    as (grad3 & rn3 & nswrf3 & nlwrf3 & precip3 & _ & _ & _ & _ & _ & ->).
  split.
  - rewrite !lookup_insert_ne by done. by rewrite lookup_insert_eq.
  - exists h', pm. split; [done|].
    rewrite !lookup_insert_ne by done. by rewrite lookup_insert_eq.
Qed.

Lemma pipeline_pet_inputs_witness :
  ∃ ds' h' pm,
    pipeline sample_svc sample_timeseries sample_ds = Some ds' ∧
    calculate_penman_monteith sample_svc
      [subc [[[288.15]]; [[288.15]]] 273.15; [[[70]]; [[70]]];
       [[[3]]; [[3]]];
       mulc (aadd (deaccumulate_data [[[0]]; [[12e6]]])
                  (deaccumulate_data [[[0]]; [[-2e6]]])) 1E-6;
       mulc [[[101325]]; [[101300]]] 1E-3]
      0 1 2 3 4 sample_timeseries = Some (h', pm) ∧
    ds' !! "penman_monteith" = Some pm.
Proof.
  eexists.
  destruct (pipeline_pet_inputs sample_svc sample_timeseries sample_ds _
              _ _ _ _ _ _ _
              eq_refl eq_refl eq_refl eq_refl eq_refl eq_refl eq_refl eq_refl)
    as (_ & h' & pm & Hcall & Hpm).
  exists h', pm. split; [reflexivity|]. by split.
Defined.

(** X10. After the pipeline the radiation fluxes 'nswrf' and 'nlwrf' are the
    de-accumulated provider fields times 1e-3, 'precip' is the de-accumulated
    field with negative samples replaced by zero, and the exported net
    radiation is, cell by cell, the sum of the exported 'nswrf' and 'nlwrf'. *)
Theorem pipeline_exported_fluxes svc timeseries ds ds'
    (nswrf nlwrf precip : field) :
  pipeline svc timeseries ds = Some ds' →
  ds !! "nswrf" = Some nswrf → ds !! "nlwrf" = Some nlwrf →
  ds !! "precip" = Some precip →
  ds' !! "nswrf" = Some (mulc (deaccumulate_data nswrf) 1E-3) ∧
  ds' !! "nlwrf" = Some (mulc (deaccumulate_data nlwrf) 1E-3) ∧
  ds' !! "precip" = Some (clip_min0 (deaccumulate_data precip)) ∧
  (∀ i y x v, cell (clip_min0 (deaccumulate_data precip)) i y x = Some v →
              0 <= v) ∧
  ∃ rn, ds' !! "rn" = Some rn ∧
    ∀ i y x u w,
      cell (mulc (deaccumulate_data nswrf) 1E-3) i y x = Some u →
      cell (mulc (deaccumulate_data nlwrf) 1E-3) i y x = Some w →
      cell rn i y x = Some (u + w).
Proof.
  intros (ds1 & ds2 & H1 & H2 & H3)%pipeline_steps Hs Hl Hp.
  destruct (unit_conversion_inv _ _ H1)
    as (pres' & temp' & grad' & nswrf' & nlwrf' & _ & _ & _ &
        Hs' & Hl' & _ & _ & _ & Hrn1).
  rewrite Hs in Hs'. injection Hs' as <-.
  rewrite Hl in Hl'. injection Hl' as <-.
  assert (∀ v data, v ∈ ["nswrf"; "nlwrf"; "precip"] → ds !! v = Some data →
            ds2 !! v = Some (deaccumulate_data data)) as Hacc.
  { intros v data Hv Hd.
    assert (v ≠ "makkink" ∧ v ≠ "penman_monteith" ∧ v ≠ "pres" ∧
            v ≠ "temp" ∧ v ≠ "grad" ∧ v ≠ "rn" ∧ v ∈ accumulated_vars)
      as (? & ? & ? & ? & ? & ? & ?).
    { repeat (apply elem_of_cons in Hv as [->|Hv];
              [repeat split; try done; in_vars|]).
      by apply elem_of_nil in Hv. }
    rewrite (pet_cell_lookup _ _ _ _ v H2) by done.
    rewrite (unit_conversion_lookup_other _ _ v H1) by done.
    by rewrite decide_True, Hd by done. }
  pose proof (Hacc "nswrf" _ ltac:(in_vars) Hs) as Hs2.
  pose proof (Hacc "nlwrf" _ ltac:(in_vars) Hl) as Hl2.
  pose proof (Hacc "precip" _ ltac:(in_vars) Hp) as Hp2.
  pose proof (pet_cell_lookup _ _ _ _ "rn" H2 ltac:(done) ltac:(done)) as Hrn2.
  rewrite Hrn1 in Hrn2.
  apply export_units_steps in H3
    as (grad3 & rn3 & nswrf3 & nlwrf3 & precip3 & _ & Hrn3 & Hs3 & Hl3 & Hp3 &
        ->).
  rewrite Hrn2 in Hrn3. injection Hrn3 as <-.
  rewrite Hs2 in Hs3. injection Hs3 as <-.
  rewrite Hl2 in Hl3. injection Hl3 as <-.
  rewrite Hp2 in Hp3. injection Hp3 as <-.
  assert (∀ a : field, mulc a 1.00E-03 = mulc a 1E-3) as Hk.
  { intros a. apply amap_ext. intros u. lra. }
  rewrite !Hk.
  split.
  { do 2 rewrite lookup_insert_ne by done. by rewrite lookup_insert_eq. }
  split.
  { rewrite lookup_insert_ne by done. by rewrite lookup_insert_eq. }
  split; [by rewrite lookup_insert_eq|].
  split; [intros i y x v; apply clip_min0_cell_nonneg|].
  eexists. split.
  { do 3 rewrite lookup_insert_ne by done. by rewrite lookup_insert_eq. }
  intros i y x u w Hu Hw. unfold mulc in *.
  apply cell_amap_inv in Hu as (u0 & Hu0 & ->).
  apply cell_amap_inv in Hw as (w0 & Hw0 & ->).
  rewrite !cell_amap. unfold aadd. rewrite cell_azip, Hu0, Hw0. simpl.
  f_equal. lra.
Qed.

Lemma pipeline_exported_fluxes_witness :
  ∃ ds', pipeline sample_svc sample_timeseries sample_ds = Some ds' ∧
    ds' !! "precip" = Some (clip_min0 (deaccumulate_data [[[0]]; [[1]]])).
Proof.
  eexists.
  destruct (pipeline_exported_fluxes sample_svc sample_timeseries sample_ds _
              _ _ _ eq_refl eq_refl eq_refl eq_refl)
    as (_ & _ & Hprecip & _).
  split; [reflexivity|exact Hprecip].
Defined.

(** X11. The pipeline assigns only 'pres', 'temp', 'grad', 'nswrf', 'nlwrf',
    'precip', 'rn', 'makkink' and 'penman_monteith': every other variable of
    the dataset ('rh' and 'ws' among them) is in the result as it was in the
    input, and a variable that was absent stays absent. *)
Theorem pipeline_frame svc timeseries ds ds' v :
  pipeline svc timeseries ds = Some ds' →
  v ∉ ["pres"; "temp"; "grad"; "nswrf"; "nlwrf"; "precip"; "rn";
       "makkink"; "penman_monteith"] →
  ds' !! v = ds !! v.
Proof.
  intros (ds1 & ds2 & H1 & H2 & H3)%pipeline_steps Hv.
  rewrite !not_elem_of_cons in Hv.
  destruct Hv as (? & ? & ? & ? & ? & ? & ? & ? & ? & _).
  apply export_units_steps in H3
    as (grad3 & rn3 & nswrf3 & nlwrf3 & precip3 & _ & _ & _ & _ & _ & ->).
  rewrite !lookup_insert_ne by done.
  rewrite (pet_cell_lookup _ _ _ _ v H2) by done.
  rewrite (unit_conversion_lookup_other _ _ v H1) by done.
  rewrite decide_False; [done|].
  unfold accumulated_vars. rewrite !not_elem_of_cons.
  repeat split; try done. apply not_elem_of_nil.
Qed.

Lemma pipeline_frame_witness :
  ∃ ds', pipeline sample_svc sample_timeseries sample_ds = Some ds' ∧
    ds' !! "ws" = sample_ds !! "ws".
Proof.
  eexists. split; [reflexivity|].
  apply (pipeline_frame sample_svc sample_timeseries sample_ds _ "ws" eq_refl).
  in_vars.
Defined.

Lemma pipeline_returned svc timeseries ds :
  is_Some (pipeline svc timeseries ds) →
  ∃ pres temp rh ws grad nswrf nlwrf precip : field,
    ds !! "pres" = Some pres ∧ ds !! "temp" = Some temp ∧
    ds !! "rh" = Some rh ∧ ds !! "ws" = Some ws ∧
    ds !! "grad" = Some grad ∧ ds !! "nswrf" = Some nswrf ∧
    ds !! "nlwrf" = Some nlwrf ∧ ds !! "precip" = Some precip ∧
    (∀ ts, ts ∈ timeseries →
       is_Some (sunrise_sunset svc (ts_date ts)) ∧ is_Some (tz_dst svc ts)) ∧
    (length timeseries ≤ length nswrf)%nat ∧
    (length timeseries ≤ length nlwrf)%nat.
Proof.
  intros [ds' (ds1 & ds2 & H1 & H2 & H3)%pipeline_steps].
  destruct (unit_conversion_inv _ _ H1)
    as (pres & temp & grad & nswrf & nlwrf & Hpres & Htemp & Hgrad &
        Hs & Hl & Hpres1 & Htemp1 & Hgrad1 & Hrn1).
  destruct (unit_conversion_present _ _ "precip" H1 ltac:(in_vars))
    as [precip Hp].
  apply pet_cell_steps in H2
    as (temp2 & grad2 & pres2 & rh & ws & rn2 & h' & pm & Ht2 & Hg2 & Hp2 &
        Hrh2 & Hws2 & Hrn2 & Hcall & ->).
  rewrite (unit_conversion_lookup_other _ _ "rh" H1) in Hrh2 by done.
  rewrite decide_False in Hrh2 by in_vars.
  rewrite (unit_conversion_lookup_other _ _ "ws" H1) in Hws2 by done.
  rewrite decide_False in Hws2 by in_vars.
  rewrite Hrn1 in Hrn2. injection Hrn2 as <-.
  exists pres, temp, rh, ws, grad, nswrf, nlwrf, precip.
  do 8 (split; [done|]).
  assert (is_Some (calculate_penman_monteith svc [temp2; rh; ws;
            mulc (aadd (deaccumulate_data nswrf) (deaccumulate_data nlwrf))
              1E-6; pres2] 0 1 2 3 4 timeseries)) as Hsome by eauto.
  apply (calculate_penman_monteith_returned svc
           [temp2; rh; ws;
            mulc (aadd (deaccumulate_data nswrf) (deaccumulate_data nlwrf))
              1E-6; pres2] 0 1 2 3 4 timeseries
           (mulc (aadd (deaccumulate_data nswrf) (deaccumulate_data nlwrf))
              1E-6) eq_refl) in Hsome as [Hsvc Hlen].
  rewrite mulc_length, aadd_length, !deaccumulate_data_length in Hlen.
  split; [done|]. lia.
Qed.

Lemma pipeline_returns svc timeseries ds :
  (∃ pres temp rh ws grad nswrf nlwrf precip : field,
    ds !! "pres" = Some pres ∧ ds !! "temp" = Some temp ∧
    ds !! "rh" = Some rh ∧ ds !! "ws" = Some ws ∧
    ds !! "grad" = Some grad ∧ ds !! "nswrf" = Some nswrf ∧
    ds !! "nlwrf" = Some nlwrf ∧ ds !! "precip" = Some precip ∧
    (∀ ts, ts ∈ timeseries →
       is_Some (sunrise_sunset svc (ts_date ts)) ∧ is_Some (tz_dst svc ts)) ∧
    (length timeseries ≤ length nswrf)%nat ∧
    (length timeseries ≤ length nlwrf)%nat) →
  is_Some (pipeline svc timeseries ds).
Proof.
  intros (pres & temp & rh & ws & grad & nswrf & nlwrf & precip & Hpres &
          Htemp & Hrh & Hws & Hgrad & Hs & Hl & Hp & Hsvc & Hls & Hll).
  destruct (unit_conversion_returns ds) as [ds1 H1].
  { intros v Hv.
    repeat (apply elem_of_cons in Hv as [->|Hv]; [eauto|]).
    by apply elem_of_nil in Hv. }
  destruct (unit_conversion_inv _ _ H1)
    as (pres' & temp' & grad' & nswrf' & nlwrf' & Hpres' & Htemp' & Hgrad' &
        Hs' & Hl' & Hpres1 & Htemp1 & Hgrad1 & Hrn1).
  rewrite Hs in Hs'. injection Hs' as <-.
  rewrite Hl in Hl'. injection Hl' as <-.
  assert (∀ v, v ≠ "pres" → v ≠ "temp" → v ≠ "grad" → v ≠ "rn" →
            is_Some (ds !! v) → is_Some (ds1 !! v)) as Hother.
  { intros v ? ? ? ? [w Hw].
    rewrite (unit_conversion_lookup_other _ _ v H1), Hw by done.
    case_decide; by eexists. }
  destruct (Hother "rh") as [rh1 Hrh1]; [done..|eauto|].
  destruct (Hother "ws") as [ws1 Hws1]; [done..|eauto|].
  destruct (Hother "nswrf") as [nswrf1 Hs1]; [done..|eauto|].
  destruct (Hother "nlwrf") as [nlwrf1 Hl1]; [done..|eauto|].
  destruct (Hother "precip") as [precip1 Hp1]; [done..|eauto|].
  destruct (calculate_penman_monteith_returns svc
              [subc temp' 273.15; rh1; ws1;
               mulc (aadd (deaccumulate_data nswrf)
                          (deaccumulate_data nlwrf)) 1E-6;
               mulc pres' 1E-3] 0 1 2 3 4 timeseries
              (mulc (aadd (deaccumulate_data nswrf)
                          (deaccumulate_data nlwrf)) 1E-6))
    as [[h' pm] Hcall]; [by eexists|by eexists|by eexists|done|by eexists
                        |done| |].
  { rewrite mulc_length, aadd_length, !deaccumulate_data_length. lia. }
  eexists. apply pipeline_steps. eexists. eexists.
  split; [exact H1|]. split.
  { apply pet_cell_steps.
    by exists (subc temp' 273.15), (mulc (deaccumulate_data grad') 1E-6),
      (mulc pres' 1E-3), rh1, ws1,
      (mulc (aadd (deaccumulate_data nswrf) (deaccumulate_data nlwrf))
         1E-6), h', pm. }
  apply export_units_steps.
  exists (mulc (deaccumulate_data grad') 1E-6),
    (mulc (aadd (deaccumulate_data nswrf) (deaccumulate_data nlwrf)) 1E-6),
    nswrf1, nlwrf1, precip1.
  repeat split; by rewrite ?lookup_insert_ne by done.
Qed.

(** X12. The pipeline returns exactly when the dataset holds the eight
    provider variables, the sunrise/sunset and timezone lookups succeed for
    every timestamp, and 'nswrf' and 'nlwrf' have a grid for every timestamp;
    a missing variable, a failed lookup or a time axis longer than the
    radiation fields makes it raise. *)
Theorem pipeline_returns_iff svc timeseries ds :
  is_Some (pipeline svc timeseries ds) ↔
  ∃ pres temp rh ws grad nswrf nlwrf precip : field,
    ds !! "pres" = Some pres ∧ ds !! "temp" = Some temp ∧
    ds !! "rh" = Some rh ∧ ds !! "ws" = Some ws ∧
    ds !! "grad" = Some grad ∧ ds !! "nswrf" = Some nswrf ∧
    ds !! "nlwrf" = Some nlwrf ∧ ds !! "precip" = Some precip ∧
    (∀ ts, ts ∈ timeseries →
       is_Some (sunrise_sunset svc (ts_date ts)) ∧ is_Some (tz_dst svc ts)) ∧
    (length timeseries ≤ length nswrf)%nat ∧
    (length timeseries ≤ length nlwrf)%nat.
Proof. split; [apply pipeline_returned|apply pipeline_returns]. Qed.

Lemma pipeline_returns_iff_witness :
  is_Some (pipeline sample_svc sample_timeseries sample_ds).
Proof.
  apply (proj2 (pipeline_returns_iff sample_svc sample_timeseries sample_ds)).
  exists [[[101325]]; [[101300]]], [[[288.15]]; [[288.15]]],
    [[[70]]; [[70]]], [[[3]]; [[3]]], [[[0]]; [[8e6]]],
    [[[0]]; [[12e6]]], [[[0]]; [[-2e6]]], [[[0]]; [[1]]].
  do 8 (split; [reflexivity|]).
  split; [intros ts _; split; eexists; reflexivity|].
  split; simpl; lia.
Defined.

End PipelineExtra.

(** ** The model run cell *)

Section ModelRunFacts.
Local Open Scope Z_scope.

Ltac unfold_time := unfold combine, date_of, hour_of, us_per_day, us_per_hour in *.

Lemma date_of_bounds now D :
  date_of now = D → combine D 0 <= now < combine (D + 1) 0.
Proof. intros <-. unfold_time. Z.div_mod_to_equations. lia. Qed.

Lemma hour_of_combine d h : 0 <= h < 24 → hour_of (combine d h) = h.
Proof. intros Hh. unfold_time. Z.div_mod_to_equations. lia. Qed.

Lemma date_of_combine d h : 0 <= h < 24 → date_of (combine d h) = d.
Proof. intros Hh. unfold_time. Z.div_mod_to_equations. lia. Qed.

(** Where the closest forecast lies, by the position of [tback] between the
    forecast times of yesterday and today. *)
Lemma closest_forecast_cases D now :
  date_of now = D →
  let tback := now - 6 * us_per_hour in
  let cf := closest_forecast D now in
  (tback = combine (D - 1) 18 ∧ cf = combine (D - 1) 12) ∨
  (combine (D - 1) 18 < tback <= combine D 0 ∧ cf = combine (D - 1) 18) ∨
  (combine D 0 < tback <= combine D 6 ∧ cf = combine D 0) ∨
  (combine D 6 < tback <= combine D 12 ∧ cf = combine D 6) ∨
  (combine D 12 < tback < combine D 18 ∧ cf = combine D 12).
Proof.
  intros HD%date_of_bounds tback cf. subst tback cf.
  unfold closest_forecast, filtered_forecasts, forecast_datetimes,
    forecast_hours.
  simpl. rewrite !filter_cons, !filter_nil.
  repeat (case_decide; try (exfalso; unfold_time; lia));
    simpl; unfold_time; lia.
Qed.

(** X13. When [date_today] is the date of [now], some forecast time lies
    before [tback = now − 6 h], so the default of [max] is never used: the
    closest forecast is the latest of the eight forecast times of yesterday
    and today that lies strictly before [tback], and it is at most six hours
    older than [tback]. *)
Theorem closest_forecast_latest_before_tback (date_today now : Z) :
  date_today = date_of now →
  let tback := now - 6 * us_per_hour in
  let cf := closest_forecast date_today now in
  filtered_forecasts date_today tback ≠ [] ∧
  cf ∈ forecast_datetimes date_today ∧
  cf < tback ∧ tback - cf <= 6 * us_per_hour ∧
  ∀ f, f ∈ forecast_datetimes date_today → f < tback → f <= cf.
Proof.
  intros HD tback cf. symmetry in HD.
  pose proof (closest_forecast_cases _ _ HD) as Hcases.
  fold tback cf in Hcases.
  assert (cf < tback ∧ tback - cf <= 6 * us_per_hour) as [Hlt Hclose].
  { destruct Hcases as [[? ?]|[[? ?]|[[? ?]|[[? ?]|[? ?]]]]];
      unfold_time; lia. }
  split.
  { intros Hnil. unfold cf, closest_forecast in Hlt. fold tback in Hlt.
    rewrite Hnil in Hlt. simpl in Hlt. lia. }
  split.
  { unfold forecast_datetimes, forecast_hours. simpl.
    destruct Hcases as [[_ ->]|[[_ ->]|[[_ ->]|[[_ ->]|[_ ->]]]]];
      repeat constructor. }
  split; [done|]. split; [done|].
  intros f Hf Hft. unfold forecast_datetimes, forecast_hours in Hf.
  simpl in Hf.
  repeat (apply elem_of_cons in Hf as [->|Hf];
          [destruct Hcases as [[? ?]|[[? ?]|[[? ?]|[[? ?]|[? ?]]]]];
           unfold_time; lia|]).
  by apply elem_of_nil in Hf.
Qed.

Lemma closest_forecast_latest_before_tback_witness :
  closest_forecast 10 (combine 10 3) ∈ forecast_datetimes 10 ∧
  closest_forecast 10 (combine 10 3) < combine 10 3 - 6 * us_per_hour.
Proof.
  destruct (closest_forecast_latest_before_tback 10 (combine 10 3) eq_refl)
    as (_ & Hin & Hlt & _).
  by split.
Defined.

(** X14. The model run ID carries the date of today and the hour of the
    closest forecast.  When [now] is later than 06:00 of today it names the
    closest forecast itself; when [now] is at or before 06:00 the closest
    forecast is a run of yesterday, and the ID, spelling today's date with
    that hour, names the instant one day later, which lies after [now]. *)
Theorem modelrun_names_today (date_today now : Z) :
  date_today = date_of now →
  let cf := closest_forecast date_today now in
  let id := modelrun date_today now in
  run_date id = date_today ∧ run_hour id = hour_of cf ∧
  run_hour id ∈ forecast_hours ∧
  (combine date_today 6 < now → run_datetime id = cf) ∧
  (now <= combine date_today 6 →
   date_of cf = date_today - 1 ∧
   run_datetime id = cf + us_per_day ∧ now < run_datetime id).
Proof.
  intros HD cf id. symmetry in HD.
  pose proof (closest_forecast_cases _ _ HD) as Hcases.
  pose proof (date_of_bounds _ _ HD) as Hnow.
  fold cf in Hcases. unfold id, modelrun, run_datetime. simpl. fold cf.
  split; [done|]. split; [done|].
  destruct Hcases as [[Ht Hcf]|[[Ht Hcf]|[[Ht Hcf]|[[Ht Hcf]|[Ht Hcf]]]]];
    rewrite Hcf, ?hour_of_combine, ?date_of_combine by lia;
    (split; [unfold forecast_hours; repeat constructor|]);
    split; intros Hcmp; try (exfalso; unfold_time; lia);
    try done; repeat split; unfold_time; lia.
Qed.

Lemma modelrun_names_today_witness :
  run_datetime (modelrun 10 (combine 10 3))
  = closest_forecast 10 (combine 10 3) + us_per_day ∧
  combine 10 3 < run_datetime (modelrun 10 (combine 10 3)).
Proof.
  destruct (modelrun_names_today 10 (combine 10 3) eq_refl)
    as (_ & _ & _ & _ & Hearly).
  destruct Hearly as (_ & Hrun & Hlater); [by vm_compute|]. by split.
Defined.

End ModelRunFacts.

(** ** The export loop *)

Section FlipFacts.
Implicit Types (data : field) (i j n : nat).

Lemma flip_loop_lookup n : ∀ data i data',
  flip_loop data i n = Some data' →
  length data' = length data ∧
  (n = 0 ∨ i + n ≤ length data)%nat ∧
  ∀ j, data' !! j = if decide (i ≤ j < i + n)%nat
                    then reverse <$> data !! j else data !! j.
Proof.
  induction n as [|n IH]; intros data i data' Hrun; simpl in Hrun.
  - injection Hrun as <-. split; [done|]. split; [by left|].
    intros j. by rewrite decide_False by lia.
  - destruct (data !! i) as [g|] eqn:Hg; simpl in Hrun; [|done].
    destruct (assign_at i data (reverse g)) as [data1|] eqn:Ha;
      simpl in Hrun; [|done].
    apply assign_at_Some in Ha as [Hi ->].
    destruct (IH _ _ _ Hrun) as (Hlen & Hn & Hlook).
    rewrite length_insert in Hlen, Hn.
    split; [done|]. split; [right; lia|].
    intros j. rewrite Hlook.
    destruct (decide (j = i)) as [->|Hne].
    + rewrite decide_False by lia. rewrite decide_True by lia.
      by rewrite list_lookup_insert_eq, Hg by lia.
    + rewrite list_lookup_insert_ne by done.
      destruct (decide (S i ≤ j < S i + n)%nat);
        [by rewrite decide_True by lia|by rewrite decide_False by lia].
Qed.

Lemma flip_loop_returns n : ∀ data i,
  (i + n ≤ length data)%nat → is_Some (flip_loop data i n).
Proof.
  induction n as [|n IH]; intros data i Hlen; simpl; [eauto|].
  destruct (lookup_lt_is_Some_2 data i) as [g ->]; [lia|]. simpl.
  unfold assign_at. rewrite decide_True by lia. simpl.
  apply IH. rewrite length_insert. lia.
Qed.

Lemma flip_loop_all data :
  flip_loop data 0 (length data) = Some (reverse <$> data).
Proof.
  destruct (flip_loop_returns (length data) data 0) as [data' Hrun]; [lia|].
  rewrite Hrun. f_equal.
  destruct (flip_loop_lookup _ _ _ _ Hrun) as (Hlen & _ & Hlook).
  apply list_eq. intros j. rewrite Hlook, list_lookup_fmap.
  destruct (decide (0 ≤ j < 0 + length data)%nat) as [|Hj]; [done|].
  by rewrite lookup_ge_None_2 by lia.
Qed.

Lemma shape_fmap_reverse T Y X data :
  shape T Y X data → shape T Y X (reverse <$> data).
Proof.
  rewrite !shape_lookup. intros [HT H].
  split; [by rewrite length_fmap|].
  intros i g' Hg'. rewrite list_lookup_fmap in Hg'.
  destruct (data !! i) as [g|] eqn:Hg; simpl in Hg'; [|done].
  injection Hg' as <-. destruct (H i g Hg) as [HY Hr].
  split; [by rewrite length_reverse|].
  intros y r Hry. apply reverse_lookup_Some in Hry as [Hry _]. by eapply Hr.
Qed.

(** X15. The flip of the export loop, run over the whole time axis of a
    field of shape (T, Y, X), reverses the rows of every grid: row y of the
    flipped grid is row Y−1−y of the dataset, which is also where the
    exported y coordinate of row y comes from, so that every sample keeps its
    coordinate; the shape is kept and a second flip restores the field. *)
Theorem flip_keeps_coordinates (T Y X : nat) data (ys : list Q) :
  shape T Y X data → length ys = Y →
  ∃ data', flip_loop data 0 T = Some data' ∧
    shape T Y X data' ∧
    (∀ i y x, (y < Y)%nat →
       cell data' i y x = cell data i (Y - 1 - y) x) ∧
    (∀ y, (y < Y)%nat → export_y ys !! y = ys !! (Y - 1 - y)%nat) ∧
    flip_loop data' 0 T = Some data.
Proof.
  intros Hshape Hys. exists (reverse <$> data).
  pose proof Hshape as [HT Hgrids]%shape_lookup.
  split; [by rewrite <- HT, flip_loop_all|].
  split; [by apply shape_fmap_reverse|]. split; [|split].
  - intros i y x Hy. unfold cell. rewrite list_lookup_fmap.
    destruct (data !! i) as [g|] eqn:Hg; simpl; [|done].
    destruct (Hgrids i g Hg) as [HY _].
    rewrite reverse_lookup by lia. rewrite HY.
    by replace (Y - S y)%nat with (Y - 1 - y)%nat by lia.
  - intros y Hy. unfold export_y. rewrite reverse_lookup by lia.
    rewrite Hys. by replace (Y - S y)%nat with (Y - 1 - y)%nat by lia.
  - replace T with (length (reverse <$> data))
      by by rewrite length_fmap.
    rewrite flip_loop_all. f_equal.
    rewrite <- list_fmap_compose. rewrite <- (list_fmap_id data) at 2.
    apply list_fmap_ext. intros _ g _. simpl. apply reverse_involutive.
Qed.

Lemma flip_keeps_coordinates_witness :
  ∃ data',
    flip_loop [[[1%R]; [2%R]]; [[3%R]; [4%R]]] 0 2 = Some data' ∧
    cell data' 0 0 0 = cell [[[1%R]; [2%R]]; [[3%R]; [4%R]]] 0 1 0 ∧
    export_y [10%Q; 20%Q] !! 0%nat = [10%Q; 20%Q] !! 1%nat.
Proof.
  destruct (flip_keeps_coordinates 2 2 1 [[[1%R]; [2%R]]; [[3%R]; [4%R]]]
              [10%Q; 20%Q])
    as (data' & Hrun & _ & Hcell & Hy & _).
  - split; [reflexivity|]. repeat constructor.
  - reflexivity.
  - exists data'. split; [exact Hrun|]. split.
    + apply (Hcell 0%nat 0%nat 0%nat). lia.
    + apply (Hy 0%nat). lia.
Defined.

End FlipFacts.

Section ExportFacts.
Local Open Scope string_scope.
Implicit Types (ds : gmap string field) (table : list (string * list pvalue)).









End ExportFacts.

(** ** Cells 4 to 6 followed by the export loop *)

Section WholeRun.
Local Open Scope R_scope.
Local Open Scope string_scope.
Implicit Types (ds : gmap string field).

Ltac in_vars := by apply (bool_decide_unpack _).





End WholeRun.

(** ** Spatial subsetting *)

Section SubsetFacts.
Implicit Types (keep : list bool) (xs ys : list Q).

Lemma existsb_andb_fmap (b : bool) (l : list bool) :
  existsb (λ c : bool, c) ((λ c, b && c) <$> l)
  = b && existsb (λ c : bool, c) l.
Proof.
  induction l as [|c l IH]; [simpl; by rewrite andb_false_r|].
  rewrite fmap_cons. cbn [existsb]. rewrite IH. by destruct b, c.
Qed.

Lemma existsb_andb_const (c : bool) (l : list bool) :
  existsb (λ b, b && c) l = c && existsb (λ b : bool, b) l.
Proof.
  induction l as [|b l IH]; simpl; [by rewrite andb_false_r|].
  rewrite IH. by destruct b, c.
Qed.

Lemma keep_x_mask xs ys :
  keep_x (mask xs ys)
  = (λ bx, bx && existsb (λ c : bool, c) (mask_y ys)) <$> mask_x xs.
Proof.
  unfold keep_x, mask. rewrite <- list_fmap_compose.
  apply list_fmap_ext. intros _ bx _. simpl. apply existsb_andb_fmap.
Qed.

Lemma keep_y_mask xs ys :
  keep_y (length ys) (mask xs ys)
  = (λ by', by' && existsb (λ c : bool, c) (mask_x xs)) <$> mask_y ys.
Proof.
  unfold keep_y, mask. apply list_eq. intros i.
  rewrite !list_lookup_fmap.
  destruct (decide (i < length ys)%nat) as [Hi|Hi].
  - rewrite lookup_seq_lt by done. simpl.
    assert (is_Some (mask_y ys !! i)) as [c Hc].
    { apply lookup_lt_is_Some_2. unfold mask_y. by rewrite length_fmap. }
    rewrite Hc. simpl. f_equal.
    rewrite <- existsb_andb_const.
    induction (mask_x xs) as [|bx mx IH]; [done|].
    rewrite fmap_cons. cbn [existsb]. rewrite IH.
    by rewrite list_lookup_fmap, Hc.
  - rewrite lookup_seq_ge by lia. simpl.
    rewrite lookup_ge_None_2; [done|].
    unfold mask_y. rewrite length_fmap. lia.
Qed.

Lemma rank_0 keep : rank keep 0 = 0%nat.
Proof. done. Qed.

Lemma rank_S b keep i :
  rank (b :: keep) (S i) = ((if b then 1 else 0) + rank keep i)%nat.
Proof.
  unfold rank. simpl. rewrite filter_cons.
  by destruct b.
Qed.

(** A kept label is found at its rank. *)
Lemma select_rank {A} keep : ∀ (l : list A) i,
  keep !! i = Some true → select keep l !! rank keep i = l !! i.
Proof.
  induction keep as [|b keep IH]; intros l i Hi; [done|].
  destruct l as [|v l].
  { by destruct b. }
  destruct i as [|i]; simpl in Hi.
  - injection Hi as ->. done.
  - rewrite rank_S. destruct b; simpl; by apply IH.
Qed.

(** Every selected element comes from a kept label. *)
Lemma select_lookup_inv {A} keep : ∀ (l : list A) j v,
  select keep l !! j = Some v →
  ∃ i, keep !! i = Some true ∧ l !! i = Some v ∧ j = rank keep i.
Proof.
  induction keep as [|b keep IH]; intros l j v Hj; [done|].
  destruct l as [|w l]; [done|]. simpl in Hj.
  destruct b.
  - destruct j as [|j]; simpl in Hj.
    + injection Hj as ->. by exists 0%nat.
    + destruct (IH _ _ _ Hj) as (i & Hk & Hl & ->).
      exists (S i). by rewrite rank_S.
  - destruct (IH _ _ _ Hj) as (i & Hk & Hl & ->).
    exists (S i). by rewrite rank_S.
Qed.

Lemma select_length_eq {A B} keep : ∀ (l1 : list A) (l2 : list B),
  length l1 = length l2 → length (select keep l1) = length (select keep l2).
Proof.
  induction keep as [|b keep IH]; intros [|v1 l1] [|v2 l2] Hlen;
    simpl in *; try done.
  destruct b; simpl; [f_equal|]; apply IH; lia.
Qed.

Lemma in_range_true lo hi c :
  in_range lo hi c = true ↔ (lo <= c)%Q ∧ (c <= hi)%Q.
Proof. unfold in_range. by rewrite andb_true_iff, !Qle_bool_iff. Qed.

Lemma existsb_true_lookup (l : list bool) :
  existsb (λ c : bool, c) l = true ↔ ∃ i, l !! i = Some true.
Proof.
  induction l as [|c l IH]; simpl.
  - split; [done|]. by intros [i Hi].
  - rewrite orb_true_iff, IH. split.
    + intros [->|[i Hi]]; [by exists 0%nat|by exists (S i)].
    + intros [[|i] Hi]; simpl in Hi; [left; by injection Hi|right; eauto].
Qed.

(** The labels kept along x, read off the coordinates. *)
Lemma keep_x_lookup xs ys j :
  keep_x (mask xs ys) !! j = Some true ↔
  (∃ c, xs !! j = Some c ∧ in_range 440000 900000 c = true) ∧
  (∃ i c, ys !! i = Some c ∧ in_range 6035000 6484487 c = true).
Proof.
  rewrite keep_x_mask, list_lookup_fmap. unfold mask_x at 1.
  rewrite list_lookup_fmap.
  destruct (xs !! j) as [c|]; simpl.
  - split.
    + intros [= [Hc Hany]%andb_true_iff]. split; [eauto|].
      apply existsb_true_lookup in Hany as [i Hi]. unfold mask_y in Hi.
      rewrite list_lookup_fmap in Hi.
      destruct (ys !! i) as [cy|] eqn:Hcy; simpl in Hi; [|done].
      exists i, cy. split; [done|]. by injection Hi.
    + intros [(c' & [= <-] & Hc) (i & cy & Hcy & Hin)]. f_equal.
      apply andb_true_iff. split; [done|].
      apply existsb_true_lookup. exists i. unfold mask_y.
      by rewrite list_lookup_fmap, Hcy, <- Hin.
  - split; [done|]. by intros [(c & Hc & _) _].
Qed.

Lemma keep_y_lookup xs ys i :
  keep_y (length ys) (mask xs ys) !! i = Some true ↔
  (∃ c, ys !! i = Some c ∧ in_range 6035000 6484487 c = true) ∧
  (∃ j c, xs !! j = Some c ∧ in_range 440000 900000 c = true).
Proof.
  rewrite keep_y_mask, list_lookup_fmap. unfold mask_y at 1.
  rewrite list_lookup_fmap.
  destruct (ys !! i) as [c|]; simpl.
  - split.
    + intros [= [Hc Hany]%andb_true_iff]. split; [eauto|].
      apply existsb_true_lookup in Hany as [j Hj]. unfold mask_x in Hj.
      rewrite list_lookup_fmap in Hj.
      destruct (xs !! j) as [cx|] eqn:Hcx; simpl in Hj; [|done].
      exists j, cx. split; [done|]. by injection Hj.
    + intros [(c' & [= <-] & Hc) (j & cx & Hcx & Hin)]. f_equal.
      apply andb_true_iff. split; [done|].
      apply existsb_true_lookup. exists j. unfold mask_x.
      by rewrite list_lookup_fmap, Hcx, <- Hin.
  - split; [done|]. by intros [(c & Hc & _) _].
Qed.

(** The mask is true at every cell that is kept: [where] replaces no kept
    sample. *)
Lemma kept_cells_in_mask xs ys j i :
  keep_x (mask xs ys) !! j = Some true →
  keep_y (length ys) (mask xs ys) !! i = Some true →
  mask xs ys !! j ≫= (.!! i) = Some true.
Proof.
  intros [(cx & Hcx & Hx) _]%keep_x_lookup [(cy & Hcy & Hy) _]%keep_y_lookup.
  unfold mask, mask_x, mask_y. rewrite !list_lookup_fmap, Hcx. simpl.
  rewrite !list_lookup_fmap, Hcy. simpl. by rewrite Hx, Hy.
Qed.

Lemma select_elem_of {A} keep (l : list A) v :
  v ∈ select keep l ↔ ∃ i, keep !! i = Some true ∧ l !! i = Some v.
Proof.
  split.
  - intros [j Hj]%list_elem_of_lookup_1.
    destruct (select_lookup_inv _ _ _ _ Hj) as (i & Hk & Hl & _). eauto.
  - intros (i & Hk & Hl). apply list_elem_of_lookup.
    exists (rank keep i). by rewrite select_rank.
Qed.

(** X18. The spatial subsetting keeps exactly the coordinates inside the
    bounding box, provided the other axis has a coordinate inside its range:
    every x coordinate kept lies in [440000, 900000] and every y coordinate
    kept in [6035000, 6484487]; a pair of coordinates that both lie inside is
    kept; and when one axis has no coordinate inside its range, both axes are
    left without coordinates. *)
Theorem subset_coordinates_in_box (ds : grid_dataset) :
  let ds' := spatial_subset ds in
  (∀ c, c ∈ coord_x ds' →
     c ∈ coord_x ds ∧ (440000 <= c)%Q ∧ (c <= 900000)%Q) ∧
  (∀ c, c ∈ coord_y ds' →
     c ∈ coord_y ds ∧ (6035000 <= c)%Q ∧ (c <= 6484487)%Q) ∧
  (∀ cx cy, cx ∈ coord_x ds → cy ∈ coord_y ds →
     (440000 <= cx)%Q ∧ (cx <= 900000)%Q →
     (6035000 <= cy)%Q ∧ (cy <= 6484487)%Q →
     cx ∈ coord_x ds' ∧ cy ∈ coord_y ds') ∧
  (coord_x ds' = [] ↔ coord_y ds' = []).
Proof.
  intros ds'. subst ds'. unfold spatial_subset. simpl.
  set (xs := coord_x ds). set (ys := coord_y ds).
  assert (∀ c, c ∈ select (keep_x (mask xs ys)) xs ↔
            (c ∈ xs ∧ in_range 440000 900000 c = true) ∧
            ∃ i cy, ys !! i = Some cy ∧ in_range 6035000 6484487 cy = true)
    as Hx.
  { intros c. rewrite select_elem_of. split.
    - intros (j & [(c' & Hc' & Hin) Hy]%keep_x_lookup & Hc).
      rewrite Hc in Hc'. injection Hc' as <-.
      split; [|done]. split; [by eapply list_elem_of_lookup_2|done].
    - intros [[[j Hj]%list_elem_of_lookup_1 Hin] Hy].
      exists j. split; [|done]. apply keep_x_lookup. eauto. }
  assert (∀ c, c ∈ select (keep_y (length ys) (mask xs ys)) ys ↔
            (c ∈ ys ∧ in_range 6035000 6484487 c = true) ∧
            ∃ j cx, xs !! j = Some cx ∧ in_range 440000 900000 cx = true)
    as Hy.
  { intros c. rewrite select_elem_of. split.
    - intros (i & [(c' & Hc' & Hin) Hx']%keep_y_lookup & Hc).
      rewrite Hc in Hc'. injection Hc' as <-.
      split; [|done]. split; [by eapply list_elem_of_lookup_2|done].
    - intros [[[i Hi]%list_elem_of_lookup_1 Hin] Hx'].
      exists i. split; [|done]. apply keep_y_lookup. eauto. }
  split; [|split; [|split]].
  - intros c [[Hc Hin%in_range_true] _]%Hx. by split.
  - intros c [[Hc Hin%in_range_true] _]%Hy. by split.
  - intros cx cy Hcx Hcy Hinx%in_range_true Hiny%in_range_true.
    pose proof Hcx as [j Hj]%list_elem_of_lookup_1.
    pose proof Hcy as [i Hi]%list_elem_of_lookup_1.
    split; [apply Hx|apply Hy]; eauto 6.
  - split; intros Hnil; apply elem_of_nil_inv; intros c Hc.
    + apply Hy in Hc as [[Hc Hin] (j & cx & Hcx & Hinx)].
      assert (cx ∈ select (keep_x (mask xs ys)) xs) as Habs.
      { apply Hx. split; [split; [by eapply list_elem_of_lookup_2|done]|].
        apply list_elem_of_lookup_1 in Hc as [i Hi]. eauto. }
      rewrite Hnil in Habs. by apply elem_of_nil in Habs.
    + apply Hx in Hc as [[Hc Hin] (i & cy & Hcy & Hiny)].
      assert (cy ∈ select (keep_y (length ys) (mask xs ys)) ys) as Habs.
      { apply Hy. split; [split; [by eapply list_elem_of_lookup_2|done]|].
        apply list_elem_of_lookup_1 in Hc as [j Hj]. eauto. }
      rewrite Hnil in Habs. by apply elem_of_nil in Habs.
Qed.

Lemma subset_coordinates_in_box_witness :
  450000%Q ∈ coord_x (spatial_subset sample_grid) ∧
  (∀ c, c ∈ coord_x (spatial_subset sample_grid) → (440000 <= c)%Q).
Proof.
  destruct (subset_coordinates_in_box sample_grid)
    as (Hin & _ & Hkept & _).
  split.
  - apply (Hkept 450000%Q 6100000%Q).
    + apply list_elem_of_further, list_elem_of_here.
    + apply list_elem_of_here.
    + split; by apply Qle_bool_iff.
    + split; by apply Qle_bool_iff.
  - intros c Hc. by destruct (Hin c Hc) as (_ & Hlo & _).
Defined.

(** X19. The subsetting keeps every sample at its coordinates and keeps the
    arrays in step with the coordinate lists: a variable of shape
    (T, len(y), len(x)) has afterwards the shape (T, len(y'), len(x')) of the
    kept coordinates, and the sample that stood at a pair of coordinates
    inside the bounding box stands at the same pair of coordinates. *)
Theorem subset_keeps_samples (ds : grid_dataset) (T : nat) (v : string)
    (a : field) :
  data_vars ds !! v = Some a →
  shape T (length (coord_y ds)) (length (coord_x ds)) a →
  let ds' := spatial_subset ds in
  ∃ a', data_vars ds' !! v = Some a' ∧
    shape T (length (coord_y ds')) (length (coord_x ds')) a' ∧
    ∀ t y x (cx cy : Q) (s : R),
      coord_x ds !! x = Some cx → coord_y ds !! y = Some cy →
      in_range 440000 900000 cx = true →
      in_range 6035000 6484487 cy = true →
      cell a t y x = Some s →
      ∃ y' x', coord_y ds' !! y' = Some cy ∧ coord_x ds' !! x' = Some cx ∧
        cell a' t y' x' = Some s.
Proof.
  intros Ha Hshape ds'. subst ds'. unfold spatial_subset. simpl.
  set (xs := coord_x ds) in *. set (ys := coord_y ds) in *.
  set (kx := keep_x (mask xs ys)). set (ky := keep_y (length ys) (mask xs ys)).
  exists (subset_field kx ky a). split; [by rewrite lookup_fmap, Ha|].
  apply shape_lookup in Hshape as [HT Hgrids]. split.
  - apply shape_lookup. unfold subset_field.
    split; [by rewrite length_fmap|].
    intros t g' Hg'. rewrite list_lookup_fmap in Hg'.
    destruct (a !! t) as [g|] eqn:Hg; simpl in Hg'; [|done].
    injection Hg' as <-. destruct (Hgrids t g Hg) as [HY Hrows].
    split; [rewrite length_fmap; by apply select_length_eq|].
    intros y r' Hr'. rewrite list_lookup_fmap in Hr'.
    destruct (select ky g !! y) as [r|] eqn:Hr; simpl in Hr'; [|done].
    injection Hr' as <-.
    destruct (select_lookup_inv _ _ _ _ Hr) as (y0 & _ & Hy0 & _).
    apply select_length_eq. by eapply Hrows.
  - intros t y x cx cy s Hcx Hcy Hinx Hiny Hs.
    assert (kx !! x = Some true) as Hkx.
    { apply keep_x_lookup. split; [by exists cx|by exists y, cy]. }
    assert (ky !! y = Some true) as Hky.
    { apply keep_y_lookup. split; [by exists cy|by exists x, cx]. }
    exists (rank ky y), (rank kx x).
    split; [by rewrite select_rank|]. split; [by rewrite select_rank|].
    unfold cell, subset_field in *. rewrite list_lookup_fmap.
    destruct (a !! t) as [g|]; simpl in *; [|done].
    rewrite list_lookup_fmap, select_rank by done.
    destruct (g !! y) as [r|]; simpl in *; [|done].
    by rewrite select_rank.
Qed.

Lemma subset_keeps_samples_witness :
  ∃ a', data_vars (spatial_subset sample_grid) !! "temp"%string = Some a' ∧
    ∃ y' x',
      coord_y (spatial_subset sample_grid) !! y' = Some 6100000%Q ∧
      coord_x (spatial_subset sample_grid) !! x' = Some 450000%Q ∧
      cell a' 0 y' x' = Some 2%R.
Proof.
  destruct (subset_keeps_samples sample_grid 1 "temp"%string
              [[[1%R; 2%R]]] eq_refl)
    as (a' & Ha' & _ & Hcell).
  - split; [reflexivity|]. repeat constructor.
  - exists a'. split; [exact Ha'|].
    apply (Hcell 0%nat 0%nat 1%nat 450000%Q 6100000%Q 2%R);
      reflexivity.
Defined.

End SubsetFacts.

(** ** The download cell *)

Section DownloadFacts.
Implicit Types (fetch : string → string + string) (w : world)
  (pars before after : list string).

Lemma list_ascii_app (s t : string) :
  String.list_ascii_of_string (s +:+ t)
  = String.list_ascii_of_string s ++ String.list_ascii_of_string t.
Proof. induction s as [|c s IH]; simpl; [done|]. by rewrite IH. Qed.

Lemma string_app_inj_r (t s1 s2 : string) : s1 +:+ t = s2 +:+ t → s1 = s2.
Proof.
  intros Heq. apply (f_equal String.list_ascii_of_string) in Heq.
  rewrite !list_ascii_app in Heq. apply app_inv_tail in Heq.
  apply (f_equal String.string_of_list_ascii) in Heq.
  by rewrite !String.string_of_list_ascii_of_string in Heq.
Qed.

Lemma netcdf_file_inj sep folder :
  Inj (=) (=) (netcdf_file sep folder).
Proof.
  intros p q Heq. unfold netcdf_file in Heq.
  do 3 apply String.app_inj in Heq. by apply string_app_inj_r in Heq.
Qed.

(** The parameters before the first failure are handled as if they were the
    whole list. *)
Lemma download_loop_app fetch sep folder a before : ∀ rest w,
  (∀ p, p ∈ before → ∃ c, fetch (entry_url a p) = inl c) →
  download_loop fetch sep folder a (before ++ rest) w
  = download_loop fetch sep folder a rest
      (download_loop fetch sep folder a before w).
Proof.
  induction before as [|p before IH]; intros rest w Hok; simpl; [done|].
  destruct (Hok p) as [c Hc]; [apply list_elem_of_here|]. rewrite Hc.
  apply IH. intros q Hq. apply Hok. by apply list_elem_of_further.
Qed.

(** X20. The download stops at the first request that fails: the parameters
    before it are requested and saved as usual, the failure is printed, and
    the parameters after it are neither requested nor saved (the loop lies
    inside the [try]). *)
Theorem download_stops_at_first_failure fetch sep folder a
    before par after e w :
  (∀ p, p ∈ before → ∃ c, fetch (entry_url a p) = inl c) →
  fetch (entry_url a par) = inr e →
  let w1 := download_loop fetch sep folder a before w in
  download_loop fetch sep folder a (before ++ par :: after) w
  = {| files := files w1;
       stdout := stdout w1 ++ ["Failed to connect to EDR API: " +:+ e];
       requests := requests w1 ++ [entry_url a par] |}.
Proof.
  intros Hok Hfail w1. rewrite download_loop_app by done. simpl.
  by rewrite Hfail.
Qed.

Lemma download_stops_at_first_failure_witness :
  let fetch := λ url : string,
    if decide (url = entry_url (api_dict "k" "r") "wind-speed")
    then inr "404" else inl "data" in
  let w := download fetch "/" (output_folder "C:\nb") (api_dict "k" "r") (World ∅ [] []) in
  length (requests w) = 2%nat ∧
  files w !! "C:\nb\output/harmonie_total-precipitation.nc" = None.
Proof.
  intros fetch w. subst w. unfold download.
  change (parameter (api_dict "k" "r"))
    with (["temperature-2m"]
          ++ "wind-speed"
             :: ["total-precipitation"; "pressure-surface";
                 "relative-humidity-2m"; "net-short-wave-radiation-flux";
                 "net-long-wave-radiation-flux"; "global-radiation-flux"]).
  rewrite (download_stops_at_first_failure fetch "/" (output_folder "C:\nb")
             (api_dict "k" "r") ["temperature-2m"] "wind-speed" _ "404").
  - split; reflexivity.
  - intros p Hp. apply list_elem_of_singleton in Hp as ->.
    exists "data". reflexivity.
  - reflexivity.
Defined.

Lemma download_loop_ok fetch sep folder a (content : string → string)
    pars : ∀ w,
  NoDup pars →
  (∀ p, p ∈ pars → fetch (entry_url a p) = inl (content p)) →
  let w' := download_loop fetch sep folder a pars w in
  requests w' = requests w ++ (entry_url a <$> pars) ∧
  stdout w'
  = stdout w ++ ((λ p, "Saving harmonie_" +:+ p +:+ ".nc") <$> pars) ∧
  (∀ p, p ∈ pars →
     files w' !! netcdf_file sep folder p = Some (content p)) ∧
  (∀ path, path ∉ (netcdf_file sep folder <$> pars) →
     files w' !! path = files w !! path).
Proof.
  induction pars as [|par pars IH]; intros w Hnd Hok; simpl.
  - rewrite !app_nil_r. repeat split. intros p Hp. by apply elem_of_nil in Hp.
  - apply NoDup_cons in Hnd as [Hnotin Hnd].
    rewrite (Hok par) by apply list_elem_of_here.
    set (w1 := World _ _ _).
    destruct (IH w1 Hnd) as (Hreq & Hout & Hfiles & Hother).
    { intros p Hp. apply Hok. by apply list_elem_of_further. }
    subst w1. cbn [files stdout requests] in Hreq, Hout, Hother.
    rewrite Hreq, Hout. rewrite <- !app_assoc. simpl.
    split; [done|]. split; [done|]. split.
    + intros p [->|Hp]%elem_of_cons; [|by apply Hfiles].
      rewrite Hother; [by rewrite lookup_insert_eq|].
      intros (q & Heq & Hq)%list_elem_of_fmap.
      apply netcdf_file_inj in Heq as ->. done.
    + intros path Hpath. apply not_elem_of_cons in Hpath as [Hne Hpath].
      rewrite Hother by done. by rewrite lookup_insert_ne.
Qed.

(** X21. When all eight requests succeed the download requests the eight
    URLs in the order of [api_dict["parameter"]], prints one line per file
    and no failure, and leaves in the output folder one file
    [harmonie_<parameter>.nc] per parameter holding the response to that
    parameter's request; the other files of the folder are left as they
    were. *)
Theorem download_saves_every_parameter fetch sep folder
    (api_key modelrun : string) (content : string → string) w :
  let a := api_dict api_key modelrun in
  (∀ p, p ∈ parameter a → fetch (entry_url a p) = inl (content p)) →
  let w' := download fetch sep folder a w in
  requests w' = requests w ++ (entry_url a <$> parameter a) ∧
  stdout w'
  = stdout w ++ ((λ p, "Saving harmonie_" +:+ p +:+ ".nc") <$> parameter a) ∧
  (∀ p, p ∈ parameter a →
     files w' !! netcdf_file sep folder p = Some (content p)) ∧
  (∀ path, path ∉ (netcdf_file sep folder <$> parameter a) →
     files w' !! path = files w !! path).
Proof.
  intros a Hok w'. apply download_loop_ok; [|done].
  by apply (bool_decide_unpack _).
Qed.

Lemma download_saves_every_parameter_witness :
  let w := download (λ url, inl ("response to " +:+ url)) "/" (output_folder "C:\nb")
             (api_dict "k" "r") (World ∅ [] []) in
  length (requests w) = 8%nat ∧
  files w !! "C:\nb\output/harmonie_wind-speed.nc"
  = Some ("response to " +:+ entry_url (api_dict "k" "r") "wind-speed").
Proof.
  intros w.
  destruct (download_saves_every_parameter
              (λ url, inl ("response to " +:+ url)) "/" (output_folder "C:\nb") "k" "r"
              (λ p, "response to " +:+ entry_url (api_dict "k" "r") p)
              (World ∅ [] []))
    as (Hreq & _ & Hfiles & _); [done|].
  split.
  - subst w. rewrite Hreq. reflexivity.
  - apply (Hfiles "wind-speed").
    apply list_elem_of_further, list_elem_of_here.
Defined.

End DownloadFacts.

(** ** Renaming the variables *)

Section RenameFacts.
Local Open Scope string_scope.
Implicit Types (d : list (pvalue * string)) (ds raw : dataset).

Lemma dict_get_elem d k v : dict_get d k = Some v → (k, v) ∈ d.
Proof.
  induction d as [|[k' v'] d IH]; simpl; [done|].
  destruct (dict_get d k) as [v''|] eqn:E.
  - intros [= <-]. apply list_elem_of_further. by apply IH.
  - case_decide; [|done]. intros [= <-]. subst. apply list_elem_of_here.
Qed.

Lemma dict_get_None d k : k ∉ d.*1 → dict_get d k = None.
Proof.
  induction d as [|[k' v'] d IH]; simpl; [done|].
  intros [Hne Hnin]%not_elem_of_cons. rewrite IH by done.
  case_decide; [congruence|done].
Qed.

Lemma dict_get_Some d k v : NoDup d.*1 → (k, v) ∈ d → dict_get d k = Some v.
Proof.
  induction d as [|[k' v'] d IH]; simpl.
  - intros _ H. by apply elem_of_nil in H.
  - intros [Hnin Hnd]%NoDup_cons [[= -> ->]|Hin]%elem_of_cons.
    + rewrite dict_get_None by done. by rewrite decide_True.
    + by rewrite (IH Hnd Hin).
Qed.

Lemma NoDup_snd_inj d k1 k2 v :
  NoDup d.*2 → (k1, v) ∈ d → (k2, v) ∈ d → k1 = k2.
Proof.
  induction d as [|[k' v'] d IH]; simpl.
  - intros _ H. by apply elem_of_nil in H.
  - intros [Hnin Hnd]%NoDup_cons H1 H2.
    apply elem_of_cons in H1 as [[= -> ->]|H1];
      apply elem_of_cons in H2 as [[= ->]|H2]; try done.
    + destruct Hnin. apply list_elem_of_fmap. by exists (k2, v').
    + subst. destruct Hnin. apply list_elem_of_fmap. by exists (k1, v').
    + by apply IH.
Qed.

(** The renaming is one-to-one on the variables of a dataset that holds none
    of the new names. *)
Lemma new_name_inj d ds k1 k2 :
  NoDup d.*2 →
  (∀ new, new ∈ d.*2 → ds !! new = None) →
  is_Some (ds !! k1) → is_Some (ds !! k2) →
  new_name d k1 = new_name d k2 → k1 = k2.
Proof.
  intros Hnd Hfree [f1 H1] [f2 H2]. unfold new_name.
  destruct (dict_get d (PStr k1)) as [v1|] eqn:E1;
    destruct (dict_get d (PStr k2)) as [v2|] eqn:E2; simpl; intros Heq.
  - subst v2. apply dict_get_elem in E1, E2.
    by injection (NoDup_snd_inj _ _ _ _ Hnd E1 E2).
  - subst v1. apply dict_get_elem in E1.
    rewrite (Hfree k2) in H2; [done|].
    apply list_elem_of_fmap. by exists (PStr k1, k2).
  - subst v2. apply dict_get_elem in E2.
    rewrite (Hfree k1) in H1; [done|].
    apply list_elem_of_fmap. by exists (PStr k2, k1).
  - done.
Qed.

Lemma rename_Some d ds :
  (∀ k, k ∈ d.*1 → ∃ s, k = PStr s ∧ is_Some (ds !! s)) →
  (∀ k1 k2, is_Some (ds !! k1) → is_Some (ds !! k2) →
     new_name d k1 = new_name d k2 → k1 = k2) →
  ∃ ds', rename d ds = Some ds' ∧
    ∀ k' f, ds' !! k' = Some f ↔ ∃ k, k' = new_name d k ∧ ds !! k = Some f.
Proof.
  intros Hkeys Hinj. unfold rename.
  assert (forallb (is_variable ds) d.*1 = true) as ->.
  { apply forallb_forall. intros k Hk%list_elem_of_In.
    destruct (Hkeys k Hk) as (s & -> & Hs). simpl.
    by apply bool_decide_eq_true_2. }
  set (renamed := (λ kv : string * field, (new_name d kv.1, kv.2))
                    <$> map_to_list ds).
  assert (NoDup renamed.*1) as Hnd.
  { assert (renamed.*1 = new_name d <$> (map_to_list ds).*1) as ->.
    { subst renamed. by rewrite <- !list_fmap_compose. }
    apply NoDup_fmap_2_strong; [|apply NoDup_fst_map_to_list].
    intros k1 k2 [[k1' f1] [-> Hin1]]%list_elem_of_fmap
      [[k2' f2] [-> Hin2]]%list_elem_of_fmap.
    apply elem_of_map_to_list in Hin1, Hin2. simpl.
    apply Hinj; by eexists. }
  rewrite bool_decide_eq_true_2 by done.
  eexists. split; [done|]. intros k' f.
  rewrite <- elem_of_list_to_map by done. subst renamed.
  rewrite list_elem_of_fmap. split.
  - intros [[k f'] [[= -> ->] Hin%elem_of_map_to_list]]. by exists k.
  - intros (k & -> & Hk). exists (k, f). split; [done|].
    by apply elem_of_map_to_list.
Qed.

Lemma rename_None d ds k :
  k ∈ d.*1 → is_variable ds k = false → rename d ds = None.
Proof.
  intros Hk Hvar. unfold rename.
  destruct (forallb (is_variable ds) d.*1) eqn:E; [|done].
  rewrite forallb_forall in E.
  rewrite E in Hvar; [done|]. by apply list_elem_of_In.
Qed.

(** What [ds.rename(d)] gives when the keys of [d] are distinct variables of
    the dataset and its new names are distinct and not yet in use. *)
Lemma rename_spec d ds :
  (∀ k, k ∈ d.*1 → ∃ s, k = PStr s ∧ is_Some (ds !! s)) →
  NoDup d.*1 → NoDup d.*2 →
  (∀ new, new ∈ d.*2 → ds !! new = None) →
  ∃ ds', rename d ds = Some ds' ∧
    (∀ old new, (PStr old, new) ∈ d →
       ds' !! new = ds !! old ∧ ds' !! old = None) ∧
    (∀ k, PStr k ∉ d.*1 → k ∉ d.*2 → ds' !! k = ds !! k).
Proof.
  intros Hkeys Hnd1 Hnd2 Hfree.
  destruct (rename_Some d ds Hkeys) as (ds' & Hren & Hds').
  { intros k1 k2. by apply new_name_inj. }
  exists ds'. split; [done|].
  assert (∀ k f, ds' !! k = Some f → ds !! k = Some f ∨ k ∈ d.*2) as Hfrom.
  { intros k f (k0 & -> & Hk0)%Hds'. unfold new_name.
    destruct (dict_get d (PStr k0)) as [v|] eqn:E; simpl; [|by left].
    right. apply dict_get_elem in E. apply list_elem_of_fmap.
    by exists (PStr k0, v). }
  split.
  - intros old new Hin.
    assert (new_name d old = new) as Hnew.
    { unfold new_name. by rewrite (dict_get_Some _ _ _ Hnd1 Hin). }
    destruct (Hkeys (PStr old)) as (s & [= <-] & [f Hf]).
    { apply list_elem_of_fmap. by exists (PStr old, new). }
    split.
    + rewrite Hf. apply Hds'. by exists old.
    + destruct (ds' !! old) as [g|] eqn:E; [|done].
      apply Hds' in E as (k0 & Hk0 & Hg). unfold new_name in Hk0.
      destruct (dict_get d (PStr k0)) as [v|] eqn:E0; simpl in Hk0.
      * subst v. apply dict_get_elem in E0.
        rewrite (Hfree old) in Hf; [done|].
        apply list_elem_of_fmap. by exists (PStr k0, old).
      * subst k0. by rewrite (dict_get_Some _ _ _ Hnd1 Hin) in E0.
  - intros k Hk1 Hk2. apply option_eq. intros f. split.
    + intros [?|?]%Hfrom; done.
    + intros Hf. apply Hds'. exists k. split; [|done].
      unfold new_name. by rewrite dict_get_None.
Qed.

Lemma rename_dict_eq :
  rename_dict
  = [(PStr "temperature-2m", "temp"); (PStr "pressure-surface", "pres");
     (PStr "global-radiation-flux", "grad");
     (PStr "total-precipitation", "precip"); (PStr "wind-speed", "ws");
     (PStr "relative-humidity-2m", "rh");
     (PStr "net-long-wave-radiation-flux", "nlwrf");
     (PStr "net-short-wave-radiation-flux", "nswrf")].
Proof. reflexivity. Qed.

(** The keys of [rename_dict] are the parameters of the download. *)
Lemma rename_dict_keys api_key modelrun k :
  k ∈ rename_dict.*1 ↔
  ∃ p, k = PStr p ∧ p ∈ parameter (api_dict api_key modelrun).
Proof.
  rewrite rename_dict_eq. simpl. split.
  - intros Hk. repeat (apply elem_of_cons in Hk as [->|Hk];
      [eexists; split; [done|]; by apply (bool_decide_unpack _)|]).
    by apply elem_of_nil in Hk.
  - intros (p & -> & Hp).
    repeat (apply elem_of_cons in Hp as [->|Hp];
      [by apply (bool_decide_unpack _)|]).
    by apply elem_of_nil in Hp.
Qed.

Lemma rename_dict_spec api_key modelrun raw :
  (∀ p, p ∈ parameter (api_dict api_key modelrun) → is_Some (raw !! p)) →
  (∀ new, new ∈ rename_dict.*2 → raw !! new = None) →
  ∃ ds, rename rename_dict raw = Some ds ∧
    (∀ old new, (PStr old, new) ∈ rename_dict →
       ds !! new = raw !! old ∧ ds !! old = None) ∧
    (∀ k, PStr k ∉ rename_dict.*1 → k ∉ rename_dict.*2 →
       ds !! k = raw !! k).
Proof.
  intros Hvars Hfree. apply rename_spec; [|..|done].
  - intros k (p & -> & Hp)%(rename_dict_keys api_key modelrun).
    exists p. split; [done|]. by apply Hvars.
  - by apply (bool_decide_unpack _).
  - by apply (bool_decide_unpack _).
Qed.

End RenameFacts.

Section RenameTheorems.
Local Open Scope string_scope.
Implicit Types (raw : dataset).

Lemma sample_raw_has_parameters p :
  p ∈ parameter (api_dict "k" "r") → is_Some (sample_raw !! p).
Proof.
  simpl. intros Hp.
  repeat (apply elem_of_cons in Hp as [->|Hp]; [by eexists|]).
  by apply elem_of_nil in Hp.
Qed.

Lemma sample_raw_free new : new ∈ rename_dict.*2 → sample_raw !! new = None.
Proof.
  rewrite rename_dict_eq. simpl. intros Hp.
  repeat (apply elem_of_cons in Hp as [->|Hp]; [done|]).
  by apply elem_of_nil in Hp.
Qed.

(** X22. On a dataset that holds the eight downloaded parameters and none of
    the short names yet, the renaming succeeds: each short name of [param]
    holds the field of its download parameter, the long names are gone, and
    every other variable is kept under its name. *)
Theorem rename_gives_short_names api_key modelrun raw :
  (∀ p, p ∈ parameter (api_dict api_key modelrun) → is_Some (raw !! p)) →
  (∀ new, new ∈ rename_dict.*2 → raw !! new = None) →
  ∃ ds, rename rename_dict raw = Some ds ∧
    ds !! "temp" = raw !! "temperature-2m" ∧
    ds !! "pres" = raw !! "pressure-surface" ∧
    ds !! "grad" = raw !! "global-radiation-flux" ∧
    ds !! "precip" = raw !! "total-precipitation" ∧
    ds !! "ws" = raw !! "wind-speed" ∧
    ds !! "rh" = raw !! "relative-humidity-2m" ∧
    ds !! "nlwrf" = raw !! "net-long-wave-radiation-flux" ∧
    ds !! "nswrf" = raw !! "net-short-wave-radiation-flux" ∧
    (∀ p, p ∈ parameter (api_dict api_key modelrun) → ds !! p = None) ∧
    (∀ k, k ∉ parameter (api_dict api_key modelrun) →
       k ∉ rename_dict.*2 → ds !! k = raw !! k).
Proof.
  intros Hvars Hfree.
  destruct (rename_dict_spec api_key modelrun raw Hvars Hfree)
    as (ds & Hren & Hold & Hother).
  exists ds. split; [done|].
  do 8 (split; [apply Hold; by apply (bool_decide_unpack _)|]).
  split.
  - intros p Hp.
    assert (PStr p ∈ rename_dict.*1) as Hk.
    { apply (rename_dict_keys api_key modelrun). by exists p. }
    apply list_elem_of_fmap in Hk as ([k new] & Hk & Hin). simpl in Hk.
    subst k. by apply (Hold p new).
  - intros k Hk1 Hk2. apply Hother; [|done].
    intros (p & [= <-] & Hp)%(rename_dict_keys api_key modelrun). done.
Qed.

Lemma rename_gives_short_names_witness :
  ∃ ds, rename rename_dict sample_raw = Some ds ∧
    ds !! "ws" = sample_raw !! "wind-speed" ∧
    ds !! "wind-speed" = None.
Proof.
  destruct (rename_gives_short_names "k" "r" sample_raw
              sample_raw_has_parameters sample_raw_free)
    as (ds & Hren & _ & _ & _ & _ & Hws & _ & _ & _ & Hgone & _).
  exists ds. split; [done|]. split; [done|].
  apply Hgone. by apply (bool_decide_unpack _).
Defined.

(** X23. The renaming hands the pipeline the names it reads: on a dataset
    with the eight downloaded parameters, whose two net fluxes have a
    timestep for every timestamp, and with the sunrise and time-zone
    services answering, the renaming and then the pipeline both return. *)
Theorem rename_feeds_pipeline api_key modelrun svc timeseries raw :
  (∀ p, p ∈ parameter (api_dict api_key modelrun) → is_Some (raw !! p)) →
  (∀ new, new ∈ rename_dict.*2 → raw !! new = None) →
  (∀ ts, ts ∈ timeseries →
     is_Some (sunrise_sunset svc (ts_date ts)) ∧ is_Some (tz_dst svc ts)) →
  (∀ f, raw !! "net-short-wave-radiation-flux" = Some f →
     (length timeseries ≤ length f)%nat) →
  (∀ f, raw !! "net-long-wave-radiation-flux" = Some f →
     (length timeseries ≤ length f)%nat) →
  ∃ ds, rename rename_dict raw = Some ds ∧
    is_Some (pipeline svc timeseries ds).
Proof.
  intros Hvars Hfree Hsvc Hsw Hlw.
  destruct (rename_dict_spec api_key modelrun raw Hvars Hfree)
    as (ds & Hren & Hold & _).
  exists ds. split; [done|]. apply pipeline_returns.
  assert (∀ old new, (PStr old, new) ∈ rename_dict →
            ∃ f, raw !! old = Some f ∧ ds !! new = Some f) as Hget.
  { intros old new Hin. destruct (Hvars old) as [f Hf].
    - assert (PStr old ∈ rename_dict.*1) as Hk.
      { apply list_elem_of_fmap. by exists (PStr old, new). }
      apply (rename_dict_keys api_key modelrun) in Hk
        as (p & [= <-] & Hp). done.
    - exists f. split; [done|]. rewrite <- Hf. by apply Hold. }
  destruct (Hget "pressure-surface" "pres") as (pres & _ & Hpres);
    [by apply (bool_decide_unpack _)|].
  destruct (Hget "temperature-2m" "temp") as (temp & _ & Htemp);
    [by apply (bool_decide_unpack _)|].
  destruct (Hget "relative-humidity-2m" "rh") as (rh & _ & Hrh);
    [by apply (bool_decide_unpack _)|].
  destruct (Hget "wind-speed" "ws") as (ws & _ & Hws);
    [by apply (bool_decide_unpack _)|].
  destruct (Hget "global-radiation-flux" "grad") as (grad & _ & Hgrad);
    [by apply (bool_decide_unpack _)|].
  destruct (Hget "net-short-wave-radiation-flux" "nswrf")
    as (nswrf & Hraw_sw & Hnswrf); [by apply (bool_decide_unpack _)|].
  destruct (Hget "net-long-wave-radiation-flux" "nlwrf")
    as (nlwrf & Hraw_lw & Hnlwrf); [by apply (bool_decide_unpack _)|].
  destruct (Hget "total-precipitation" "precip") as (precip & _ & Hprecip);
    [by apply (bool_decide_unpack _)|].
  exists pres, temp, rh, ws, grad, nswrf, nlwrf, precip.
  do 8 (split; [done|]). split; [done|]. split; [by apply Hsw|by apply Hlw].
Qed.

Lemma rename_feeds_pipeline_witness :
  ∃ ds, rename rename_dict sample_raw = Some ds ∧
    is_Some (pipeline sample_svc sample_timeseries ds).
Proof.
  apply (rename_feeds_pipeline "k" "r" sample_svc sample_timeseries
           sample_raw sample_raw_has_parameters sample_raw_free).
  - intros ts _. split; eexists; reflexivity.
  - intros f Hf.
    assert (sample_raw !! "net-short-wave-radiation-flux"
            = Some [[[0%R]]; [[12e6%R]]]) as Hc by reflexivity.
    rewrite Hc in Hf. injection Hf as <-. simpl. lia.
  - intros f Hf.
    assert (sample_raw !! "net-long-wave-radiation-flux"
            = Some [[[0%R]]; [[(-2e6)%R]]]) as Hc by reflexivity.
    rewrite Hc in Hf. injection Hf as <-. simpl. lia.
Defined.

(** X24. A dataset that lacks one of the eight downloaded parameters is
    refused by the renaming. *)
Theorem rename_needs_every_parameter api_key modelrun raw p :
  p ∈ parameter (api_dict api_key modelrun) →
  raw !! p = None →
  rename rename_dict raw = None.
Proof.
  intros Hp Hnone. apply (rename_None _ _ (PStr p)).
  - apply (rename_dict_keys api_key modelrun). by exists p.
  - simpl. apply bool_decide_eq_false_2. rewrite Hnone.
    by intros [? ?].
Qed.

Lemma rename_needs_every_parameter_witness :
  rename rename_dict (delete "wind-speed" sample_raw) = None.
Proof.
  apply (rename_needs_every_parameter "k" "r" _ "wind-speed").
  - by apply (bool_decide_unpack _).
  - reflexivity.
Defined.

End RenameTheorems.
